(** * very-simple-queue: the reservation protocol of the two storage drivers

    A shallow embedding of [src/drivers/Sqlite3Driver.js],
    [src/drivers/RedisDriver.js] and of the facade [VerySimpleQueue],
    together with the properties that the design document states about them.

    The definitions come first:
    - [Js]            the JavaScript values the drivers handle (JSON data,
                      object spread, template literals, truthiness);
    - [Json]          [JSON.stringify] and [JSON.parse] on those values;
    - [Glob]          the key patterns of the key-value store;
    - [Redis]         the key-value store, the lock service, and programs
                      over them (one command per awaited call), run alone or
                      interleaved with other callers;
    - [RedisDriver]   the distributed-store driver;
    - [Sqlite]        the relational store: one table, transactions, and the
                      statements that can fail;
    - [Sqlite3Driver] the relational driver;
    - [Client]        the queue client and the facade;
    - [RedisCalls], [SqliteCalls]
                      what the calls of the drivers amount to;
    - [Lifecycle], [SqliteOps], [RedisOps], [Backends], [Scenario]
                      the vocabulary and the inputs of the properties.

    The further properties have a vocabulary of their own in [KeyNames],
    [SqliteWords] and [RedisWords]; [Facade] is the constructor of the
    facade.

    The lemmas follow: [JsonFacts] (what is written parses back),
    [RedisFacts] and [SqliteFacts] (the drivers, call by call), [Claims]
    (the statements of the design document, C1 to C10), and the further
    properties of the code, X1 to X24: [GlobFacts], [SqliteProperties],
    [RedisProperties], [RedisJourneys] and [FacadeFacts]. *)

From Stdlib Require Import String Ascii List ZArith Bool Lia.
From Stdlib Require Import DecimalString DecimalZ DecimalPos.
Import ListNotations.

Set Warnings "-register-all".

Local Open Scope list_scope.
Local Open Scope string_scope.

(* ================================================================== *)
(** * JavaScript values *)
(* ================================================================== *)

Module Js.

(** JSON data.  Numbers are the integers (timestamps are integer seconds);
    an object is the list of its own properties in insertion order. *)
Inductive json : Type :=
| JNull
| JBool (b : bool)
| JNum (z : Z)
| JStr (s : string)
| JArr (items : list json)
| JObj (fields : list (string * json)).

(** [value = None] stands for [undefined]. *)
Definition value := option json.

(** An error object: its name and its message. *)
Inductive error : Type :=
| Err (name message : string).

(** The outcome of a call: it returns or it throws (a promise resolves or
    rejects). *)
Inductive result (A : Type) : Type :=
| Ok (a : A)
| Exn (e : error).
Arguments Ok {A} a.
Arguments Exn {A} e.

Definition TypeError (m : string) : error := Err "TypeError" m.
Definition SyntaxError (m : string) : error := Err "SyntaxError" m.
Definition Error (m : string) : error := Err "Error" m.

Definition print_Z (z : Z) : string := NilEmpty.string_of_int (Z.to_int z).
Definition print_nat (n : nat) : string := print_Z (Z.of_nat n).

(** Own properties. *)
Fixpoint lookup (k : string) (fs : list (string * json)) : value :=
  match fs with
  | [] => None
  | (k', v) :: fs' => if String.eqb k k' then Some v else lookup k fs'
  end.

(** [o.k = v]: an existing property keeps its place, a new one goes last. *)
Fixpoint assign (k : string) (v : json) (fs : list (string * json))
  : list (string * json) :=
  match fs with
  | [] => [(k, v)]
  | (k', v') :: fs' =>
      if String.eqb k k' then (k, v) :: fs' else (k', v') :: assign k v fs'
  end.

(** [x.k] for a value [x] that is not [null] or [undefined]. *)
Definition get_field (k : string) (x : json) : value :=
  match x with
  | JObj fs => lookup k fs
  | _ => None
  end.

Fixpoint index_from {A : Type} (i : nat) (l : list A) : list (string * A) :=
  match l with
  | [] => []
  | x :: l' => (print_nat i, x) :: index_from (S i) l'
  end.

Fixpoint chars (s : string) : list json :=
  match s with
  | EmptyString => []
  | String c s' => JStr (String c EmptyString) :: chars s'
  end.

(** [{ ...x }]: the own enumerable properties of [x]; none for [null],
    [undefined], numbers and booleans. *)
Definition spread (x : value) : list (string * json) :=
  match x with
  | Some (JObj fs) => fs
  | Some (JArr l) => index_from 0 l
  | Some (JStr s) => index_from 0 (chars s)
  | _ => []
  end.

(** Truthiness, as [!x], [x ? a : b] and [x || y] read it. *)
Definition truthy (x : value) : bool :=
  match x with
  | None => false
  | Some JNull => false
  | Some (JBool b) => b
  | Some (JNum z) => negb (Z.eqb z 0)
  | Some (JStr s) => negb (String.eqb s EmptyString)
  | Some (JArr _) => true
  | Some (JObj _) => true
  end.

Fixpoint join (sep : string) (l : list string) : string :=
  match l with
  | [] => EmptyString
  | [x] => x
  | x :: l' => x ++ sep ++ join sep l'
  end.

(** [`${x}`]: the string a template literal puts in place of [x]. *)
Fixpoint to_string (x : json) : string :=
  match x with
  | JNull => "null"
  | JBool true => "true"
  | JBool false => "false"
  | JNum z => print_Z z
  | JStr s => s
  | JArr l =>
      join "," (map (fun y => match y with
                              | JNull => EmptyString
                              | _ => to_string y
                              end) l)
  | JObj _ => "[object Object]"
  end.

Definition interpolate (x : value) : string :=
  match x with
  | None => "undefined"
  | Some v => to_string v
  end.

End Js.

Export Js.

(* ================================================================== *)
(** * JSON text *)
(* ================================================================== *)

(** [JSON.stringify] and [JSON.parse] are built into the language; this is
    their behaviour on the values of [Js.json] and on compact JSON text (the
    form [JSON.stringify] writes: no insignificant white space, integer
    numbers, code units below 256). *)
Module Json.

Definition dquote : ascii := "034"%char.
Definition backslash : ascii := "\"%char.

Definition hex_char (n : nat) : ascii :=
  match n with
  | 0 => "0" | 1 => "1" | 2 => "2" | 3 => "3" | 4 => "4" | 5 => "5"
  | 6 => "6" | 7 => "7" | 8 => "8" | 9 => "9" | 10 => "a" | 11 => "b"
  | 12 => "c" | 13 => "d" | 14 => "e" | _ => "f"
  end%char.

Definition hex_value (c : ascii) : option nat :=
  let n := nat_of_ascii c in
  if ((48 <=? n) && (n <=? 57))%nat then Some (n - 48)
  else if ((97 <=? n) && (n <=? 102))%nat then Some (n - 87)
  else if ((65 <=? n) && (n <=? 70))%nat then Some (n - 55)
  else None.

(** How [JSON.stringify] writes one character of a string. *)
Definition escape_char (c : ascii) : string :=
  let n := nat_of_ascii c in
  if Ascii.eqb c dquote then String backslash (String dquote EmptyString)
  else if Ascii.eqb c backslash then String backslash (String backslash EmptyString)
  else if (n =? 8)%nat then String backslash "b"
  else if (n =? 9)%nat then String backslash "t"
  else if (n =? 10)%nat then String backslash "n"
  else if (n =? 12)%nat then String backslash "f"
  else if (n =? 13)%nat then String backslash "r"
  else if (n <? 32)%nat then
    String backslash
      (String "u" (String "0" (String "0"
         (String (hex_char (n / 16)) (String (hex_char (n mod 16)) EmptyString)))))
  else String c EmptyString.

Fixpoint escape (s : string) : string :=
  match s with
  | EmptyString => EmptyString
  | String c s' => escape_char c ++ escape s'
  end.

Definition quote (s : string) : string :=
  String dquote (escape s ++ String dquote EmptyString).

Fixpoint stringify (v : json) : string :=
  match v with
  | JNull => "null"
  | JBool true => "true"
  | JBool false => "false"
  | JNum z => print_Z z
  | JStr s => quote s
  | JArr l => "[" ++ join "," (map stringify l) ++ "]"
  | JObj fs =>
      "{" ++ join "," (map (fun kv => quote (fst kv) ++ ":" ++ stringify (snd kv)) fs)
          ++ "}"
  end.

Definition push (c : ascii) (r : option (string * string)) : option (string * string) :=
  match r with
  | Some (str, rest) => Some (String c str, rest)
  | None => None
  end.

(** The characters of a string literal after its opening quote, up to and
    including the closing quote; the rest of the text comes back too. *)
Fixpoint parse_string_body (s : string) : option (string * string) :=
  match s with
  | EmptyString => None
  | String c s' =>
      if Ascii.eqb c dquote then Some (EmptyString, s')
      else if Ascii.eqb c backslash then
        match s' with
        | EmptyString => None
        | String e s'' =>
            if Ascii.eqb e dquote then push dquote (parse_string_body s'')
            else if Ascii.eqb e backslash then push backslash (parse_string_body s'')
            else if Ascii.eqb e "/" then push "/"%char (parse_string_body s'')
            else if Ascii.eqb e "b" then push (ascii_of_nat 8) (parse_string_body s'')
            else if Ascii.eqb e "t" then push (ascii_of_nat 9) (parse_string_body s'')
            else if Ascii.eqb e "n" then push (ascii_of_nat 10) (parse_string_body s'')
            else if Ascii.eqb e "f" then push (ascii_of_nat 12) (parse_string_body s'')
            else if Ascii.eqb e "r" then push (ascii_of_nat 13) (parse_string_body s'')
            else if Ascii.eqb e "u" then
              match s'' with
              | String h1 (String h2 (String h3 (String h4 s3))) =>
                  match hex_value h1, hex_value h2, hex_value h3, hex_value h4 with
                  | Some a, Some b, Some c', Some d =>
                      let code := ((a * 16 + b) * 16 + c') * 16 + d in
                      if (code <? 256)%nat
                      then push (ascii_of_nat code) (parse_string_body s3)
                      else None
                  | _, _, _, _ => None
                  end
              | _ => None
              end
            else None
        end
      else if (nat_of_ascii c <? 32)%nat then None
      else push c (parse_string_body s')
  end.

Definition is_digit (c : ascii) : bool :=
  let n := nat_of_ascii c in ((48 <=? n) && (n <=? 57))%nat.

(** The longest prefix of decimal digits, and what follows it. *)
Fixpoint digits_prefix (s : string) : string * string :=
  match s with
  | EmptyString => (EmptyString, EmptyString)
  | String c s' =>
      if is_digit c
      then let (ds, rest) := digits_prefix s' in (String c ds, rest)
      else (EmptyString, s)
  end.

(** Digits, after the sign if there was one. *)
Definition parse_unsigned (neg : bool) (t : string) : option (json * string) :=
  let (ds, rest) := digits_prefix t in
  match ds with
  | EmptyString => None
  | _ =>
      match NilEmpty.uint_of_string ds with
      | Some d =>
          Some (JNum (Z.of_int (if neg then Decimal.Neg d else Decimal.Pos d)), rest)
      | None => None
      end
  end.

Definition parse_number (s : string) : option (json * string) :=
  match s with
  | String "-" t => parse_unsigned true t
  | _ => parse_unsigned false s
  end.

Fixpoint parse_value (fuel : nat) (s : string) : option (json * string) :=
  match fuel with
  | O => None
  | S fuel' =>
      match s with
      | EmptyString => None
      | String "n" (String "u" (String "l" (String "l" rest))) => Some (JNull, rest)
      | String "t" (String "r" (String "u" (String "e" rest))) => Some (JBool true, rest)
      | String "f" (String "a" (String "l" (String "s" (String "e" rest)))) =>
          Some (JBool false, rest)
      | String "[" (String "]" rest) => Some (JArr [], rest)
      | String "[" rest =>
          match parse_items fuel' rest with
          | Some (l, rest') => Some (JArr l, rest')
          | None => None
          end
      | String "{" (String "}" rest) => Some (JObj [], rest)
      | String "{" rest =>
          match parse_members fuel' rest with
          | Some (fs, rest') => Some (JObj fs, rest')
          | None => None
          end
      | String c rest =>
          if Ascii.eqb c dquote then
            match parse_string_body rest with
            | Some (str, rest') => Some (JStr str, rest')
            | None => None
            end
          else parse_number s
      end
  end

with parse_items (fuel : nat) (s : string) : option (list json * string) :=
  match fuel with
  | O => None
  | S fuel' =>
      match parse_value fuel' s with
      | Some (v, String "," rest) =>
          match parse_items fuel' rest with
          | Some (l, rest') => Some (v :: l, rest')
          | None => None
          end
      | Some (v, String "]" rest) => Some ([v], rest)
      | _ => None
      end
  end

with parse_members (fuel : nat) (s : string)
  : option (list (string * json) * string) :=
  match fuel with
  | O => None
  | S fuel' =>
      match s with
      | String c s' =>
          if Ascii.eqb c dquote then
            match parse_string_body s' with
            | Some (k, String ":" s'') =>
                match parse_value fuel' s'' with
                | Some (v, String "," rest) =>
                    match parse_members fuel' rest with
                    | Some (fs, rest') => Some ((k, v) :: fs, rest')
                    | None => None
                    end
                | Some (v, String "}" rest) => Some ([(k, v)], rest)
                | _ => None
                end
            | _ => None
            end
          else None
      | EmptyString => None
      end
  end.

(** [JSON.parse]: [None] stands for the [SyntaxError] it throws.  Every call
    of the three parsers above consumes a character, so the length of the
    text is fuel enough. *)
Definition parse (s : string) : option json :=
  match parse_value (S (String.length s)) s with
  | Some (v, EmptyString) => Some v
  | _ => None
  end.

(** One member of an object, as [stringify] writes it. *)
Definition member (kv : string * json) : string :=
  quote (fst kv) ++ ":" ++ stringify (snd kv).

(** How many calls of the parsers a value takes. *)
Fixpoint size (v : json) : nat :=
  match v with
  | JArr l => S (fold_right (fun x n => S (size x + n)) 0 l)
  | JObj fs => S (fold_right (fun kv n => S (size (snd kv) + n)) 0 fs)
  | _ => 1
  end.

Definition sizes (l : list json) : nat :=
  fold_right (fun x n => S (size x + n)) 0 l.

Definition msizes (fs : list (string * json)) : nat :=
  fold_right (fun kv n => S (size (snd kv) + n)) 0 fs.

(** The text after a number must not go on with a digit. *)
Definition digit_free_head (rest : string) : Prop :=
  match rest with
  | EmptyString => True
  | String c _ => is_digit c = false
  end.

(** [v], written and followed by [rest], parses back to [v] and [rest]. *)
Definition parses (v : json) : Prop :=
  forall fuel rest, size v <= fuel -> digit_free_head rest ->
    parse_value fuel (stringify v ++ rest) = Some (v, rest).

(** Induction on JSON data, with the hypothesis for every item of an array
    and every member of an object. *)
Section JsonInd.
Variable P : json -> Prop.
Hypothesis HNull : P JNull.
Hypothesis HBool : forall b, P (JBool b).
Hypothesis HNum : forall z, P (JNum z).
Hypothesis HStr : forall s, P (JStr s).
Hypothesis HArr : forall l, Forall P l -> P (JArr l).
Hypothesis HObj : forall fs, Forall (fun kv => P (snd kv)) fs -> P (JObj fs).

Fixpoint json_nested_ind (v : json) : P v :=
  match v with
  | JNull => HNull
  | JBool b => HBool b
  | JNum z => HNum z
  | JStr s => HStr s
  | JArr l =>
      HArr l ((fix go (l : list json) : Forall P l :=
                 match l with
                 | [] => Forall_nil P
                 | x :: l' => Forall_cons x (json_nested_ind x) (go l')
                 end) l)
  | JObj fs =>
      HObj fs ((fix go (fs : list (string * json)) : Forall (fun kv => P (snd kv)) fs :=
                  match fs with
                  | [] => Forall_nil _
                  | kv :: fs' => Forall_cons kv (json_nested_ind (snd kv)) (go fs')
                  end) fs)
  end.
End JsonInd.

End Json.


(* ================================================================== *)
(** * Key patterns *)
(* ================================================================== *)

(** The glob patterns of the [KEYS] command: [*] any run of characters, [?]
    one character, [[...]] a class with ranges and [^] negation, [\] takes
    the next character literally. *)
Module Glob.

Inductive mode : Type :=
| Normal
| Class (negated matched : bool).

Fixpoint all_stars (p : string) : bool :=
  match p with
  | EmptyString => true
  | String "*" p' => all_stars p'
  | String _ _ => false
  end.

Definition in_range (a b c : ascii) : bool :=
  let lo := Nat.min (nat_of_ascii a) (nat_of_ascii b) in
  let hi := Nat.max (nat_of_ascii a) (nat_of_ascii b) in
  ((lo <=? nat_of_ascii c) && (nat_of_ascii c <=? hi))%nat.

Fixpoint matches (m : mode) (p s : string) {struct p} : bool :=
  let next p' s' :=
    match s' with
    | EmptyString => all_stars p'
    | String _ _ => matches Normal p' s'
    end in
  match m with
  | Normal =>
      match p, s with
      | EmptyString, EmptyString => true
      | EmptyString, String _ _ => false
      | String _ _, EmptyString => false
      | String "*" p1, String _ _ =>
          match p1 with
          | EmptyString => true
          | String "*" _ => matches Normal p1 s
          | String _ _ =>
              (fix try (t : string) : bool :=
                 match t with
                 | EmptyString => false
                 | String _ t' => matches Normal p1 t || try t'
                 end) s
          end
      | String "?" p1, String _ s' => next p1 s'
      | String "[" (String "^" p1), String _ _ => matches (Class true false) p1 s
      | String "[" p1, String _ _ => matches (Class false false) p1 s
      | String "\" (String x p1), String c s' =>
          if Ascii.eqb x c then next p1 s' else false
      | String x p1, String c s' =>
          if Ascii.eqb x c then next p1 s' else false
      end
  | Class negated matched =>
      match s with
      | EmptyString => false
      | String c s' =>
          match p with
          | EmptyString =>
              if xorb negated matched
              then match s' with EmptyString => true | String _ _ => false end
              else false
          | String "\" (String x p1) =>
              matches (Class negated (matched || Ascii.eqb x c)) p1 s
          | String "]" p1 =>
              if xorb negated matched then next p1 s' else false
          | String a (String "-" (String b p1)) =>
              matches (Class negated (matched || in_range a b c)) p1 s
          | String x p1 =>
              matches (Class negated (matched || Ascii.eqb x c)) p1 s
          end
      end
  end.

(** [KEYS pattern] keeps a key when the pattern is exactly [*] or matches. *)
Definition glob (pattern key : string) : bool :=
  String.eqb pattern "*" || matches Normal pattern key.

End Glob.


(* ================================================================== *)
(** * The key-value store, the lock service and programs over them *)
(* ================================================================== *)

Module Redis.

(** What a driver shares with every other caller: the key space, the
    resources the lock service has handed out, and the clock.  The key space
    lists the keys in the order [KEYS] enumerates them (a new key goes last).
    [strict_keys] is a property of the client library, which the driver
    receives at construction: whether a command given [null] for a key
    rejects ([true]) or completes without touching any key ([false]). *)
Record world : Type := mkWorld {
  db : list (string * string);
  held : list string;
  now : Z;
  strict_keys : bool
}.

Fixpoint db_get (k : string) (d : list (string * string)) : option string :=
  match d with
  | [] => None
  | (k', v) :: d' => if String.eqb k k' then Some v else db_get k d'
  end.

Fixpoint db_set (k v : string) (d : list (string * string)) : list (string * string) :=
  match d with
  | [] => [(k, v)]
  | (k', v') :: d' =>
      if String.eqb k k' then (k, v) :: d' else (k', v') :: db_set k v d'
  end.

Definition db_del (k : string) (d : list (string * string)) : list (string * string) :=
  filter (fun kv => negb (String.eqb k (fst kv))) d.

Definition db_keys (pattern : string) (d : list (string * string)) : list string :=
  map fst (filter (fun kv => Glob.glob pattern (fst kv)) d).

(** The first key that [KEYS pattern] lists, unless it is the empty string:
    [keysResult[0] || null]. *)
Definition first_key (pattern : string) (d : list (string * string)) : option string :=
  match db_keys pattern d with
  | [] => None
  | key :: _ => if String.eqb key EmptyString then None else Some key
  end.

Definition with_db (w : world) (d : list (string * string)) : world :=
  mkWorld d (held w) (now w) (strict_keys w).

Definition with_held (w : world) (h : list string) : world :=
  mkWorld (db w) h (now w) (strict_keys w).

(** One awaited call on a collaborator. *)
Inductive cmd : Type -> Type :=
| Connect : cmd unit
| Keys (pattern : string) : cmd (list string)
| Get (key : string) : cmd (option string)
| Set_ (key val : string) : cmd unit
| Setnx (key val : string) : cmd unit
| Del (key : option string) : cmd (result unit)
| Quit : cmd unit
| Lock (resource : string) : cmd (result string)
| Unlock (resource : string) : cmd unit
| Now : cmd Z.

Definition mem (x : string) (l : list string) : bool :=
  existsb (String.eqb x) l.

(** The lock service grants a resource nobody holds and refuses one that is
    held (the driver asks with a single retry; waiting is not modelled). *)
Definition exec {B : Type} (c : cmd B) (w : world) : B * world :=
  match c in cmd T return T * world with
  | Connect => (tt, w)
  | Keys pattern => (db_keys pattern (db w), w)
  | Get key => (db_get key (db w), w)
  | Set_ key val => (tt, with_db w (db_set key val (db w)))
  | Setnx key val =>
      match db_get key (db w) with
      | Some _ => (tt, w)
      | None => (tt, with_db w (db_set key val (db w)))
      end
  | Del (Some key) => (Ok tt, with_db w (db_del key (db w)))
  | Del None =>
      if strict_keys w
      then (Exn (TypeError "Invalid argument type"), w)
      else (Ok tt, w)
  | Quit => (tt, w)
  | Lock resource =>
      if mem resource (held w)
      then (Exn (Error "LockError"), w)
      else (Ok resource, with_held w (resource :: held w))
  | Unlock resource =>
      (tt, with_held w (filter (fun r => negb (String.eqb r resource)) (held w)))
  | Now => (now w, w)
  end.

(** A program: the commands a call issues, each continued with its reply. *)
Inductive prog (A : Type) : Type :=
| Ret (a : A)
| Do {B : Type} (c : cmd B) (k : B -> prog A).
Arguments Ret {A} a.
Arguments Do {A B} c k.

Fixpoint pbind {A B : Type} (p : prog A) (f : A -> prog B) : prog B :=
  match p with
  | Ret a => f a
  | Do c k => Do c (fun b => pbind (k b) f)
  end.

(** A call that nobody interrupts. *)
Fixpoint run {A : Type} (p : prog A) (w : world) : A * world :=
  match p with
  | Ret a => (a, w)
  | Do c k => let (b, w') := exec c w in run (k b) w'
  end.

(** Concurrent callers: each step of the schedule lets one caller issue its
    next command. *)
Definition step {A : Type} (p : prog A) (w : world) : prog A * world :=
  match p with
  | Ret a => (Ret a, w)
  | Do c k => let (b, w') := exec c w in (k b, w')
  end.

Fixpoint replace_nth {A : Type} (i : nat) (x : A) (l : list A) : list A :=
  match l, i with
  | [], _ => []
  | _ :: l', O => x :: l'
  | y :: l', S i' => y :: replace_nth i' x l'
  end.

Fixpoint interleave {A : Type} (schedule : list nat) (callers : list (prog A))
         (w : world) : list (prog A) * world :=
  match schedule with
  | [] => (callers, w)
  | i :: schedule' =>
      match nth_error callers i with
      | None => interleave schedule' callers w
      | Some p =>
          let (p', w') := step p w in
          interleave schedule' (replace_nth i p' callers) w'
      end
  end.

Definition returned {A : Type} (p : prog A) : option A :=
  match p with
  | Ret a => Some a
  | Do _ _ => None
  end.

(** The driver object: its private [#connection] field. *)
Inductive client : Type := Client.

Record driver : Type := mkDriver { connection : option client }.

Definition fresh : driver := mkDriver None.
Definition connected : driver := mkDriver (Some Client).

(** A method: it reads and writes the driver's fields, issues commands, and
    returns or throws. *)
Definition M (A : Type) : Type := driver -> prog (result A * driver).

Definition ret {A : Type} (a : A) : M A := fun d => Ret (Ok a, d).

Definition throw {A : Type} (e : error) : M A := fun d => Ret (Exn e, d).

Definition bind {A B : Type} (m : M A) (f : A -> M B) : M B :=
  fun d => pbind (m d) (fun rd =>
    match fst rd with
    | Ok a => f a (snd rd)
    | Exn e => Ret (Exn e, snd rd)
    end).

Definition try_catch {A : Type} (m : M A) (handler : error -> M A) : M A :=
  fun d => pbind (m d) (fun rd =>
    match fst rd with
    | Ok a => Ret (Ok a, snd rd)
    | Exn e => handler e (snd rd)
    end).

(** A call on a collaborator other than the connection. *)
Definition call {B : Type} (c : cmd B) : M B :=
  fun d => Do c (fun b => Ret (Ok b, d)).

(** What reading a method of an unset connection throws. *)
Definition no_connection (method : string) : error :=
  TypeError ("Cannot read properties of undefined (reading '" ++ method ++ "')").

(** [this.#connection.f]: reading a method of the connection throws when
    the field is still unset. *)
Definition deref (method : string) : M unit :=
  fun d =>
    match connection d with
    | None => Ret (Exn (no_connection method), d)
    | Some _ => Ret (Ok tt, d)
    end.

(** [await this.#connection.f(...)] *)
Definition on_connection {B : Type} (method : string) (c : cmd B) : M B :=
  bind (deref method) (fun _ => call c).

(** A rejected reply becomes a throw. *)
Definition settle {A : Type} (m : M (result A)) : M A :=
  bind m (fun r => match r with Ok a => ret a | Exn e => throw e end).

End Redis.

Declare Scope redis_scope.
Notation "x <- m ;; k" := (Redis.bind m (fun x => k))
  (at level 61, m at next level, right associativity) : redis_scope.
Notation "m ;;; k" := (Redis.bind m (fun _ => k))
  (at level 61, right associativity) : redis_scope.
Delimit Scope redis_scope with redis.

(* ================================================================== *)
(** * The distributed-store driver (src/drivers/RedisDriver.js) *)
(* ================================================================== *)

Module RedisDriver.
Import Redis.
Local Open Scope redis_scope.

(** A job is the JavaScript object the caller hands over or [JSON.parse]
    gives back; [null] is [JNull]. *)

(** [#setConnection] *)
Definition setConnection : M unit :=
  fun d =>
    match connection d with
    | Some _ => Ret (Ok tt, d)
    | None => Do Connect (fun _ => Ret (Ok tt, mkDriver (Some Client)))
    end.

(** [#parseJobResult].  No method of this driver calls it. *)
Definition parseJobResult (res : json) : result json :=
  if negb (truthy (Some res)) then Ok JNull
  else
    match Json.parse (interpolate (get_field "payload" res)) with
    | Some payload =>
        Ok (match res with
            | JObj fs => JObj (assign "payload" payload fs)
            | other => other
            end)
    | None => Exn (SyntaxError "Unexpected token in JSON")
    end.

(** [#getJobKeyByPattern]: [keysResult[0] || null]; [None] is [null]. *)
Definition getJobKeyByPattern (pattern : string) : M (option string) :=
  keysResult <- on_connection "keys" (Keys pattern) ;;
  ret (match keysResult with
       | [] => None
       | key :: _ => if String.eqb key EmptyString then None else Some key
       end).

(** [#getJobByKey] *)
Definition getJobByKey (key : string) : M json :=
  rawJob <- on_connection "get" (Get key) ;;
  match rawJob with
  | None => ret JNull
  | Some text =>
      if String.eqb text EmptyString then ret JNull
      else match Json.parse text with
           | Some job => ret job
           | None => throw (SyntaxError "Unexpected token in JSON")
           end
  end.

(** [#getJobByPattern] *)
Definition getJobByPattern (pattern : string) : M json :=
  key <- getJobKeyByPattern pattern ;;
  match key with
  | None => ret JNull
  | Some k => getJobByKey k
  end.

(** [#markJob] *)
Definition markJob (job : json) (mark currentState : string) : M unit :=
  let queue := interpolate (get_field "queue" job) in
  let uuid := interpolate (get_field "uuid" job) in
  locked <- call (Lock ("jobs:locks:" ++ queue ++ "/" ++ uuid)) ;;
  match locked with
  | Exn _ => throw (Error "Failed to get a lock")
  | Ok resourceLock =>
      try_catch
        (deref "set" ;;;
         deref "del" ;;;
         keyToDelete <- getJobKeyByPattern ("jobs_" ++ currentState ++ ":*" ++ uuid) ;;
         settle (call (Del keyToDelete)) ;;;
         call (Set_ ("jobs_" ++ mark ++ ":" ++ queue ++ "/" ++ uuid) (Json.stringify job)))
        (fun _ =>
           call (Unlock resourceLock) ;;;
           throw (Error "Failed to reserve job")) ;;;
      call (Unlock resourceLock)
  end.

(** [#reserveJob].  [{ ...job }] of [null] is the empty object. *)
Definition reserveJob (job : json) : M json :=
  let jobCopy := spread (Some job) in
  let currentState :=
    if truthy (lookup "failed_at" jobCopy) then "failed" else "available" in
  timestamp <- call Now ;;
  let jobCopy := assign "reserved_at" (JNum timestamp) jobCopy in
  let jobCopy := assign "failed_at" JNull jobCopy in
  try_catch
    (markJob (JObj jobCopy) "reserved" currentState ;;; ret (JObj jobCopy))
    (fun _ => ret JNull).

(** [#failJob] *)
Definition failJob (job : json) : M unit :=
  let jobCopy := spread (Some job) in
  timestamp <- call Now ;;
  let jobCopy := assign "failed_at" (JNum timestamp) jobCopy in
  let jobCopy := assign "reserved_at" JNull jobCopy in
  markJob (JObj jobCopy) "failed" "reserved".

(** [createJobsDbStructure] *)
Definition createJobsDbStructure : M unit := ret tt.

(** [storeJob].  Reading [job.queue] of [null] throws. *)
Definition storeJob (job : json) : M unit :=
  setConnection ;;;
  deref "setnx" ;;;
  match job with
  | JNull => throw (TypeError "Cannot read properties of null (reading 'queue')")
  | _ =>
      call (Setnx ("jobs_available:" ++ interpolate (get_field "queue" job) ++ "/"
                     ++ interpolate (get_field "uuid" job))
                  (Json.stringify job))
  end.

(** [getJob].  The [try]/[catch] around [return this.#reserveJob(job)] sees
    no rejection (the promise is returned, not awaited) and [#reserveJob]
    does not throw before its first [await]: the call stands alone. *)
Definition getJob (queue : string) : M json :=
  setConnection ;;;
  job <- getJobByPattern ("jobs_available:" ++ queue ++ "/*") ;;
  if negb (truthy (Some job)) then ret JNull
  else reserveJob job.

(** [getJobByUuid] *)
Definition getJobByUuid (jobUuid : string) : M json :=
  setConnection ;;;
  job <- getJobByPattern ("jobs_available:*/" ++ jobUuid) ;;
  reserveJob job.

(** [getFailedJob] *)
Definition getFailedJob (queue : string) : M json :=
  job <- getJobByPattern ("jobs_failed:" ++ queue ++ "/*") ;;
  reserveJob job.

(** [deleteJob] *)
Definition deleteJob (jobUuid : string) : M unit :=
  jobKey <- getJobKeyByPattern ("jobs_*" ++ jobUuid) ;;
  deref "del" ;;;
  settle (call (Del jobKey)).

(** [markJobAsFailed] *)
Definition markJobAsFailed (jobUuid : string) : M unit :=
  job <- getJobByPattern ("jobs_reserved:*" ++ jobUuid) ;;
  failJob job.

(** [deleteAllJobs]: one [del] per key ([allKeys.map]), awaited together. *)
Fixpoint delete_each (keys : list string) : M unit :=
  match keys with
  | [] => ret tt
  | key :: keys' => settle (call (Del (Some key))) ;;; delete_each keys'
  end.

Definition deleteAllJobs : M unit :=
  setConnection ;;;
  deref "keys" ;;;
  allKeys <- call (Keys "*") ;;
  deref "del" ;;;
  delete_each allKeys.

(** [closeConnection] *)
Definition closeConnection : M unit :=
  on_connection "quit" Quit.

End RedisDriver.

(* ================================================================== *)
(** * The relational store *)
(* ================================================================== *)

Module Sqlite.

(** A job with its six fields: a row of the [jobs] table keeps the payload
    as text, the object a caller sees keeps it as data. *)
Record job_of (P : Type) : Type := mkJob {
  uuid : string;
  queue : string;
  payload : P;
  created_at : Z;
  reserved_at : option Z;
  failed_at : option Z
}.
Arguments mkJob {P} _ _ _ _ _ _.
Arguments uuid {P} _.
Arguments queue {P} _.
Arguments payload {P} _.
Arguments created_at {P} _.
Arguments reserved_at {P} _.
Arguments failed_at {P} _.

Definition row : Type := job_of string.
Definition Job : Type := job_of json.
Definition table : Type := list row.

(** The statements that the driver can see fail: a [true] makes that
    statement reject whenever it is issued. *)
Record faults : Type := mkFaults {
  f_open : bool;
  f_begin : bool;
  f_select : bool;
  f_update : bool;
  f_commit : bool;
  f_rollback : bool;
  f_shared : bool
}.

Definition no_faults : faults :=
  mkFaults false false false false false false false.

(** [jobs] is the committed table (the table exists: the schema has been
    created).  [pending] is the working copy of the connection that is
    inside a transaction, [shared] says whether [#sharedConnection] is set,
    [now] is what [getCurrentTimestamp] returns. *)
Record world : Type := mkWorld {
  jobs : table;
  pending : option table;
  shared : bool;
  now : Z;
  fail : faults
}.

Definition with_jobs (w : world) (t : table) : world :=
  mkWorld t (pending w) (shared w) (now w) (fail w).
Definition with_pending (w : world) (p : option table) : world :=
  mkWorld (jobs w) p (shared w) (now w) (fail w).
Definition with_shared (w : world) (b : bool) : world :=
  mkWorld (jobs w) (pending w) b (now w) (fail w).

Definition M (A : Type) : Type := world -> result A * world.

Definition ret {A : Type} (a : A) : M A := fun w => (Ok a, w).
Definition throw {A : Type} (e : error) : M A := fun w => (Exn e, w).
Definition bind {A B : Type} (m : M A) (f : A -> M B) : M B :=
  fun w =>
    match m w with
    | (Ok a, w') => f a w'
    | (Exn e, w') => (Exn e, w')
    end.
Definition try_catch {A : Type} (m : M A) (handler : error -> M A) : M A :=
  fun w =>
    match m w with
    | (Ok a, w') => (Ok a, w')
    | (Exn e, w') => handler e w'
    end.

(** The three [SELECT ... LIMIT 1] queries of the driver. *)
Inductive query : Type :=
| SelectAvailable (queue : string)
    (* WHERE queue = ? AND failed_at IS NULL AND reserved_at IS NULL *)
| SelectByUuid (uuid : string)
    (* WHERE uuid = ? AND reserved_at IS NULL *)
| SelectFailed (queue : string).
    (* WHERE queue = ? AND failed_at IS NOT NULL AND reserved_at IS NULL *)

Definition is_null (x : option Z) : bool :=
  match x with None => true | Some _ => false end.

Definition where_ (q : query) (r : row) : bool :=
  match q with
  | SelectAvailable qu =>
      String.eqb (queue r) qu && is_null (failed_at r) && is_null (reserved_at r)
  | SelectByUuid u =>
      String.eqb (uuid r) u && is_null (reserved_at r)
  | SelectFailed qu =>
      String.eqb (queue r) qu && negb (is_null (failed_at r)) && is_null (reserved_at r)
  end.

(** The other statements. *)
Inductive statement : Type :=
| BeginExclusive
| Commit
| Rollback
| UpdateReservedAt (timestamp : Z) (uuid : string)
    (* UPDATE jobs SET reserved_at = ${timestamp} WHERE uuid = "${job.uuid}" *)
| CreateTable
| Insert (uuid queue payload : string) (created_at : Z)
| DeleteReserved (uuid : string)
    (* DELETE FROM jobs WHERE reserved_at IS NOT NULL AND uuid = ? *)
| UpdateFailed (timestamp : Z) (uuid : string).
    (* UPDATE jobs SET failed_at = ?, reserved_at = NULL WHERE uuid = ? *)

Definition set_reserved (ts : Z) (u : string) (t : table) : table :=
  map (fun r => if String.eqb (uuid r) u
                then mkJob (uuid r) (queue r) (payload r) (created_at r)
                           (Some ts) (failed_at r)
                else r) t.

Definition set_failed (ts : Z) (u : string) (t : table) : table :=
  map (fun r => if String.eqb (uuid r) u
                then mkJob (uuid r) (queue r) (payload r) (created_at r)
                           None (Some ts)
                else r) t.

Definition delete_reserved (u : string) (t : table) : table :=
  filter (fun r => negb (negb (is_null (reserved_at r)) && String.eqb (uuid r) u)) t.

Definition has_uuid (u : string) (t : table) : bool :=
  existsb (fun r => String.eqb (uuid r) u) t.

Definition busy : error := Err "SQLITE_BUSY" "database is locked".
Definition sql_error (m : string) : error := Err "SQLITE_ERROR" m.
Definition constraint : error :=
  Err "SQLITE_CONSTRAINT" "UNIQUE constraint failed: jobs.uuid".

(** The table that a statement of a reservation works on: the working copy
    inside its transaction, the committed table outside. *)
Definition current (w : world) : table :=
  match pending w with
  | Some t => t
  | None => jobs w
  end.

Definition write (w : world) (t : table) : world :=
  match pending w with
  | Some _ => with_pending w (Some t)
  | None => with_jobs w t
  end.

(** A statement.  [BEGIN], [COMMIT], [ROLLBACK] and the interpolated
    [UPDATE] run on the connection of a reservation; the other statements
    run on the shared connection, which is never inside a transaction, and
    take effect at once.  [COMMIT] and [ROLLBACK] outside a transaction are
    errors of the store.  The text of the [UPDATE] is built by putting
    [job.uuid] between double quotes; it is read here as the comparison of
    the [uuid] column with that text, which is its meaning for a uuid that
    holds no double quote and is not the name of a column. *)
Definition exec (s : statement) (w : world) : result unit * world :=
  match s with
  | BeginExclusive =>
      if f_begin (fail w) then (Exn busy, w)
      else match pending w with
           | Some _ =>
               (Exn (sql_error "cannot start a transaction within a transaction"), w)
           | None => (Ok tt, with_pending w (Some (jobs w)))
           end
  | Commit =>
      if f_commit (fail w) then (Exn busy, w)
      else match pending w with
           | Some t => (Ok tt, with_pending (with_jobs w t) None)
           | None => (Exn (sql_error "cannot commit - no transaction is active"), w)
           end
  | Rollback =>
      if f_rollback (fail w) then (Exn busy, w)
      else match pending w with
           | Some _ => (Ok tt, with_pending w None)
           | None => (Exn (sql_error "cannot rollback - no transaction is active"), w)
           end
  | UpdateReservedAt ts u =>
      if f_update (fail w) then (Exn busy, w)
      else (Ok tt, write w (set_reserved ts u (current w)))
  | CreateTable =>
      if f_shared (fail w) then (Exn busy, w) else (Ok tt, w)
  | Insert u q p c =>
      if f_shared (fail w) then (Exn busy, w)
      else if has_uuid u (jobs w) then (Exn constraint, w)
      else (Ok tt, with_jobs w (jobs w ++ [mkJob u q p c None None])%list)
  | DeleteReserved u =>
      if f_shared (fail w) then (Exn busy, w)
      else (Ok tt, with_jobs w (delete_reserved u (jobs w)))
  | UpdateFailed ts u =>
      if f_shared (fail w) then (Exn busy, w)
      else (Ok tt, with_jobs w (set_failed ts u (jobs w)))
  end.

(** [SELECT ... LIMIT 1]: the first row that matches, if any. *)
Definition select (q : query) (w : world) : result (option row) * world :=
  if f_select (fail w) then (Exn busy, w)
  else (Ok (find (where_ q) (current w)), w).

End Sqlite.

Declare Scope sqlite_scope.
Notation "x <- m ;; k" := (Sqlite.bind m (fun x => k))
  (at level 61, m at next level, right associativity) : sqlite_scope.
Notation "m ;;; k" := (Sqlite.bind m (fun _ => k))
  (at level 61, right associativity) : sqlite_scope.
Delimit Scope sqlite_scope with sqlite.

(* ================================================================== *)
(** * The relational driver (src/drivers/Sqlite3Driver.js) *)
(* ================================================================== *)

Module Sqlite3Driver.
Import Sqlite.
Local Open Scope sqlite_scope.

(** [#parseJobResult] for a row that exists. *)
Definition parseJobResult (res : row) : M Job :=
  match Json.parse (payload res) with
  | Some p =>
      ret (mkJob (uuid res) (queue res) p (created_at res)
                 (reserved_at res) (failed_at res))
  | None => throw (SyntaxError "Unexpected token in JSON")
  end.

(** [#getNewConnection]: a connection of its own, outside any transaction
    (a connection left inside one is gone, and its transaction with it). *)
Definition getNewConnection : M unit :=
  fun w =>
    if f_open (fail w) then (Exn (Err "SQLITE_CANTOPEN" "unable to open database file"), w)
    else (Ok tt, with_pending w None).

(** [#setSharedConnection] *)
Definition setSharedConnection : M unit :=
  fun w =>
    if shared w then (Ok tt, w)
    else match getNewConnection w with
         | (Ok _, w') => (Ok tt, with_shared w' true)
         | (Exn e, w') => (Exn e, w')
         end.

(** [#run] and [#getRow] *)
Definition run (s : statement) : M unit := exec s.
Definition getRow (q : query) : M (option row) := select q.

Definition getCurrentTimestamp : M Z := fun w => (Ok (now w), w).

(** [#reserveJob] *)
Definition reserveJob (selectQuery : query) : M (option Job) :=
  try_catch
    (run BeginExclusive ;;;
     rawJob <- getRow selectQuery ;;
     match rawJob with
     | None =>
         run Commit ;;;
         ret None
     | Some raw =>
         job <- parseJobResult raw ;;
         timestamp <- getCurrentTimestamp ;;
         run (UpdateReservedAt timestamp (uuid job)) ;;;
         run Commit ;;;
         ret (Some job)
     end)
    (fun _ =>
       run Rollback ;;;
       ret None).

(** [createJobsDbStructure] *)
Definition createJobsDbStructure : M unit :=
  setSharedConnection ;;;
  run CreateTable.

(** [storeJob] *)
Definition storeJob (job : Job) : M unit :=
  setSharedConnection ;;;
  run (Insert (uuid job) (queue job) (Json.stringify (payload job)) (created_at job)).

(** [getJob] *)
Definition getJob (queue : string) : M (option Job) :=
  getNewConnection ;;;
  reserveJob (SelectAvailable queue).

(** [getJobByUuid] *)
Definition getJobByUuid (jobUuid : string) : M (option Job) :=
  getNewConnection ;;;
  reserveJob (SelectByUuid jobUuid).

(** [getFailedJob] *)
Definition getFailedJob (queue : string) : M (option Job) :=
  getNewConnection ;;;
  reserveJob (SelectFailed queue).

(** [deleteJob] *)
Definition deleteJob (jobUuid : string) : M unit :=
  setSharedConnection ;;;
  run (DeleteReserved jobUuid).

(** [markJobAsFailed] *)
Definition markJobAsFailed (jobUuid : string) : M unit :=
  timestamp <- getCurrentTimestamp ;;
  setSharedConnection ;;;
  run (UpdateFailed timestamp jobUuid).

End Sqlite3Driver.

(* ================================================================== *)
(** * The queue client and the facade *)
(* ================================================================== *)

Module Client.

(** The driver contract, as the client uses it: the operations act on a
    store of type [S] and hand out jobs of type [J]. *)
Record Driver (S J : Type) : Type := mkDriver {
  storeJob : J -> S -> result unit * S;
  getJob : string -> S -> result (option J) * S;
  getJobByUuid : string -> S -> result (option J) * S;
  getFailedJob : string -> S -> result (option J) * S;
  deleteJob : string -> S -> result unit * S;
  markJobAsFailed : string -> S -> result unit * S;
  uuid_of : J -> string;
  payload_of : J -> json
}.
Arguments storeJob {S J} _ _ _.
Arguments getJob {S J} _ _ _.
Arguments getJobByUuid {S J} _ _ _.
Arguments getFailedJob {S J} _ _ _.
Arguments deleteJob {S J} _ _ _.
Arguments markJobAsFailed {S J} _ _ _.
Arguments uuid_of {S J} _ _.
Arguments payload_of {S J} _ _.

(** What a [handle] call gives back when it does not throw. *)
Inductive outcome (R : Type) : Type :=
| NothingToDo
| Handled (r : R).
Arguments NothingToDo {R}.
Arguments Handled {R} r.

Section QueueClient.
Context {S J R H : Type}.
Variable driver : Driver S J.

(** A handler receives the payload; it returns a value or throws, and may
    act on a world [H] of its own. *)
Definition JobHandler : Type := json -> H -> result R * H.

(** Modelled from the spec: [QueueClient] (src/QueueClient.js) is not among
    the sources; section 4.4 of the design document gives its [handle]:
    without a job, return "nothing to do" and do not call the handler;
    after a handler that returns, [delete(uuid)] and return its result;
    after a handler that throws, [markFailed(uuid)] and throw the same
    error again. *)
Definition settle_job (jobHandler : JobHandler) (job : option J)
  : S * H -> result (outcome R) * (S * H) :=
  fun sh =>
    match job with
    | None => (Ok NothingToDo, sh)
    | Some j =>
        match jobHandler (payload_of driver j) (snd sh) with
        | (Ok r, h') =>
            match deleteJob driver (uuid_of driver j) (fst sh) with
            | (Ok _, s') => (Ok (Handled r), (s', h'))
            | (Exn e, s') => (Exn e, (s', h'))
            end
        | (Exn e, h') =>
            match markJobAsFailed driver (uuid_of driver j) (fst sh) with
            | (Ok _, s') => (Exn e, (s', h'))
            | (Exn e', s') => (Exn e', (s', h'))
            end
        end
    end.

(** Modelled from the spec: the part of [QueueClient] that the three
    [handle] operations share: fetch and reserve, then settle; an error of
    the fetch itself reaches the caller. *)
Definition handle_with (fetch : S -> result (option J) * S)
           (jobHandler : JobHandler) : S * H -> result (outcome R) * (S * H) :=
  fun sh =>
    match fetch (fst sh) with
    | (Ok job, s') => settle_job jobHandler job (s', snd sh)
    | (Exn e, s') => (Exn e, (s', snd sh))
    end.

(** Modelled from the spec: [QueueClient.handleJob], which sources the job
    from [fetchAndReserve(queue)]. *)
Definition QueueClient_handleJob (jobHandler : JobHandler) (queue : string) :=
  handle_with (getJob driver queue) jobHandler.

(** Modelled from the spec: [QueueClient.handleJobByUuid], the same
    contract over [fetchAndReserveByUuid]. *)
Definition QueueClient_handleJobByUuid (jobHandler : JobHandler) (jobUuid : string) :=
  handle_with (getJobByUuid driver jobUuid) jobHandler.

(** Modelled from the spec: [QueueClient.handleFailedJob], the same
    contract over [fetchAndReserveFailed]. *)
Definition QueueClient_handleFailedJob (jobHandler : JobHandler) (queue : string) :=
  handle_with (getFailedJob driver queue) jobHandler.

(** [VerySimpleQueue.handleJob(jobHandler, queue = 'default')] and its two
    siblings hand the call to the queue client. *)
Definition handleJob (jobHandler : JobHandler) (queue : option string) :=
  QueueClient_handleJob jobHandler
    (match queue with Some q => q | None => "default" end).

Definition handleJobByUuid (jobHandler : JobHandler) (jobUuid : string) :=
  QueueClient_handleJobByUuid jobHandler jobUuid.

Definition handleFailedJob (jobHandler : JobHandler) (queue : option string) :=
  QueueClient_handleFailedJob jobHandler
    (match queue with Some q => q | None => "default" end).

End QueueClient.

End Client.

(* ================================================================== *)
(** * Calls that nobody interrupts *)
(* ================================================================== *)

(** What a call of the distributed-store driver amounts to when nobody
    interrupts it. *)
Module RedisCalls.
Import Redis.

(** What [#getJobByKey] makes of the text under a key. *)
Definition decode (raw : option string) : result json :=
  match raw with
  | None => Ok JNull
  | Some text =>
      if String.eqb text EmptyString then Ok JNull
      else match Json.parse text with
           | Some job => Ok job
           | None => Exn (SyntaxError "Unexpected token in JSON")
           end
  end.

Definition lock_name (job : json) : string :=
  "jobs:locks:" ++ interpolate (get_field "queue" job) ++ "/"
    ++ interpolate (get_field "uuid" job).

Definition state_key (state : string) (job : json) : string :=
  "jobs_" ++ state ++ ":" ++ interpolate (get_field "queue" job) ++ "/"
    ++ interpolate (get_field "uuid" job).

Definition source_pattern (state : string) (job : json) : string :=
  "jobs_" ++ state ++ ":*" ++ interpolate (get_field "uuid" job).

Definition released (lock : string) (w : world) : list string :=
  filter (fun r => negb (String.eqb r lock)) (lock :: held w).

Definition moved (job : json) (mark currentState : string) (w : world)
  : result unit * world :=
  if mem (lock_name job) (held w) then (Exn (Error "Failed to get a lock"), w)
  else
    let w' := with_held w (released (lock_name job) w) in
    match first_key (source_pattern currentState job) (db w) with
    | Some k =>
        (Ok tt, with_db w' (db_set (state_key mark job) (Json.stringify job)
                                   (db_del k (db w))))
    | None =>
        if strict_keys w
        then (Exn (Error "Failed to reserve job"), w')
        else (Ok tt, with_db w' (db_set (state_key mark job) (Json.stringify job) (db w)))
    end.

Definition current_state (job : json) : string :=
  if truthy (lookup "failed_at" (spread (Some job))) then "failed" else "available".

Definition reserved_copy (job : json) (timestamp : Z) : json :=
  JObj (assign "failed_at" JNull
          (assign "reserved_at" (JNum timestamp) (spread (Some job)))).

Definition failed_copy (job : json) (timestamp : Z) : json :=
  JObj (assign "reserved_at" JNull
          (assign "failed_at" (JNum timestamp) (spread (Some job)))).

Definition fetch (pattern : string) (w : world) : result json :=
  match first_key pattern (db w) with
  | Some k => decode (db_get k (db w))
  | None => Ok JNull
  end.

Definition stored_key (job : json) : string :=
  "jobs_available:" ++ interpolate (get_field "queue" job) ++ "/"
    ++ interpolate (get_field "uuid" job).

(** A property whose name starts with a letter is not an index. *)
Definition starts_with_letter (k : string) : Prop :=
  match k with
  | EmptyString => False
  | String c _ => Json.is_digit c = false /\ c <> "-"%char
  end.

End RedisCalls.

(** What a reservation of the relational driver amounts to. *)
Module SqliteCalls.
Import Sqlite.

Definition parsed (raw : row) (p : json) : Job :=
  mkJob (uuid raw) (queue raw) p (created_at raw) (reserved_at raw) (failed_at raw).

(** A reservation commits the update of exactly the selected row, or leaves
    the committed table as it was. *)
Definition committed (q : query) (w : world) (out : result (option Job) * world) : Prop :=
  exists raw p,
    find (where_ q) (jobs w) = Some raw /\ Json.parse (payload raw) = Some p /\
    fst out = Ok (Some (parsed raw p)) /\
    jobs (snd out) = set_reserved (now w) (uuid raw) (jobs w).

Definition untouched (w : world) (out : result (option Job) * world) : Prop :=
  jobs (snd out) = jobs w /\ (fst out = Ok None \/ exists e, fst out = Exn e).


End SqliteCalls.

(* ================================================================== *)
(** * What the properties speak about *)
(* ================================================================== *)

(** The three states of a job, read off its two nullable timestamps. *)
Module Lifecycle.






(** A timestamp of a stored object: [null] and a missing property are both
    "not set". *)
Definition timestamp (k : string) (fs : list (string * json)) : option json :=
  match lookup k fs with
  | Some JNull => None
  | other => other
  end.

Inductive state : Type := IsAvailable | IsReserved | IsFailed.







End Lifecycle.

(** The operations of the relational driver, one after the other. *)
Module SqliteOps.
Import Sqlite.

Inductive operation : Type :=
| CreateJobsDbStructure
| StoreJob (job : Job)
| GetJob (queue : string)
| GetJobByUuid (jobUuid : string)
| GetFailedJob (queue : string)
| DeleteJob (jobUuid : string)
| MarkJobAsFailed (jobUuid : string)
| Environment (now : Z) (fail : faults).
    (* between two calls the clock moves and statements start or stop failing *)

Definition handed (out : result (option Job) * world) : option Job * world :=
  (match fst out with Ok (Some j) => Some j | _ => None end, snd out).

Definition quiet (out : result unit * world) : option Job * world :=
  (None, snd out).

(** The job a call hands to its caller, if any, and the world it leaves. *)
Definition perform (o : operation) (w : world) : option Job * world :=
  match o with
  | CreateJobsDbStructure => quiet (Sqlite3Driver.createJobsDbStructure w)
  | StoreJob job => quiet (Sqlite3Driver.storeJob job w)
  | GetJob q => handed (Sqlite3Driver.getJob q w)
  | GetJobByUuid u => handed (Sqlite3Driver.getJobByUuid u w)
  | GetFailedJob q => handed (Sqlite3Driver.getFailedJob q w)
  | DeleteJob u => quiet (Sqlite3Driver.deleteJob u w)
  | MarkJobAsFailed u => quiet (Sqlite3Driver.markJobAsFailed u w)
  | Environment n f => (None, mkWorld (jobs w) (pending w) (shared w) n f)
  end.

Fixpoint perform_all (ops : list operation) (w : world) : list Job * world :=
  match ops with
  | [] => ([], w)
  | o :: ops' =>
      let (j, w') := perform o w in
      let (js, w'') := perform_all ops' w' in
      (match j with Some x => x :: js | None => js end, w'')
  end.

Definition stores (u : string) (o : operation) : bool :=
  match o with
  | StoreJob job => String.eqb (uuid job) u
  | _ => false
  end.

End SqliteOps.

(** The operations of the distributed-store driver, one after the other. *)
Module RedisOps.
Import Redis.

Inductive operation : Type :=
| CreateJobsDbStructure
| StoreJob (job : json)
| GetJob (queue : string)
| GetJobByUuid (jobUuid : string)
| GetFailedJob (queue : string)
| DeleteJob (jobUuid : string)
| MarkJobAsFailed (jobUuid : string)
| DeleteAllJobs
| CloseConnection
| Environment (now : Z) (held : list string) (strict_keys : bool).
    (* between two calls the clock moves and locks are taken or expire *)

Definition state : Type := driver * world.

Definition call_on {A : Type} (m : M A) (s : state) : result A * state :=
  let out := run (m (fst s)) (snd s) in
  (fst (fst out), (snd (fst out), snd out)).

Definition handed (out : result json * state) : option json * state :=
  (match fst out with
   | Ok j => if truthy (Some j) then Some j else None
   | Exn _ => None
   end, snd out).

Definition quiet (out : result unit * state) : option json * state :=
  (None, snd out).

Definition perform (o : operation) (s : state) : option json * state :=
  match o with
  | CreateJobsDbStructure => quiet (call_on RedisDriver.createJobsDbStructure s)
  | StoreJob job => quiet (call_on (RedisDriver.storeJob job) s)
  | GetJob q => handed (call_on (RedisDriver.getJob q) s)
  | GetJobByUuid u => handed (call_on (RedisDriver.getJobByUuid u) s)
  | GetFailedJob q => handed (call_on (RedisDriver.getFailedJob q) s)
  | DeleteJob u => quiet (call_on (RedisDriver.deleteJob u) s)
  | MarkJobAsFailed u => quiet (call_on (RedisDriver.markJobAsFailed u) s)
  | DeleteAllJobs => quiet (call_on RedisDriver.deleteAllJobs s)
  | CloseConnection => quiet (call_on RedisDriver.closeConnection s)
  | Environment n h k => (None, (fst s, mkWorld (db (snd s)) h n k))
  end.

Fixpoint perform_all (ops : list operation) (s : state) : list json * state :=
  match ops with
  | [] => ([], s)
  | o :: ops' =>
      let (j, s') := perform o s in
      let (js, s'') := perform_all ops' s' in
      (match j with Some x => x :: js | None => js end, s'')
  end.


(** The job object of a [storeJob] carries this uuid. *)
Definition stores (u : json) (o : operation) : Prop :=
  match o with
  | StoreJob job => get_field "uuid" job = Some u
  | _ => False
  end.




End RedisOps.

(** The two drivers behind the contract of the client. *)
Module Backends.

Definition sqlite3 : Client.Driver Sqlite.world Sqlite.Job :=
  Client.mkDriver _ _
    Sqlite3Driver.storeJob Sqlite3Driver.getJob Sqlite3Driver.getJobByUuid
    Sqlite3Driver.getFailedJob Sqlite3Driver.deleteJob Sqlite3Driver.markJobAsFailed
    Sqlite.uuid Sqlite.payload.

Definition nullable (out : result json * RedisOps.state)
  : result (option json) * RedisOps.state :=
  (match fst out with
   | Ok j => Ok (if truthy (Some j) then Some j else None)
   | Exn e => Exn e
   end, snd out).

Definition redis : Client.Driver RedisOps.state json :=
  Client.mkDriver _ _
    (fun job => RedisOps.call_on (RedisDriver.storeJob job))
    (fun q s => nullable (RedisOps.call_on (RedisDriver.getJob q) s))
    (fun u s => nullable (RedisOps.call_on (RedisDriver.getJobByUuid u) s))
    (fun q s => nullable (RedisOps.call_on (RedisDriver.getFailedJob q) s))
    (fun u => RedisOps.call_on (RedisDriver.deleteJob u))
    (fun u => RedisOps.call_on (RedisDriver.markJobAsFailed u))
    (fun j => interpolate (get_field "uuid" j))
    (fun j => match get_field "payload" j with Some p => p | None => JNull end).

End Backends.

(** The inputs of the examples. *)
Module Scenario.

Definition the_payload : json := JObj [("x", JNum 1)].

Definition the_job : json :=
  JObj [("uuid", JStr "u1"); ("queue", JStr "q"); ("payload", the_payload);
        ("created_at", JNum 100); ("reserved_at", JNull); ("failed_at", JNull)].

Definition the_reserved_job : json :=
  JObj [("uuid", JStr "u1"); ("queue", JStr "q"); ("payload", the_payload);
        ("created_at", JNum 100); ("reserved_at", JNum 200); ("failed_at", JNull)].

(** A key-value store at time 200, nobody holding a lock. *)
Definition store_of (d : list (string * string)) (strict : bool) : Redis.world :=
  Redis.mkWorld d [] 200 strict.

Definition available_key : string := "jobs_available:q/u1".
Definition reserved_key : string := "jobs_reserved:q/u1".

(** The store after [storeJob the_job]. *)
Definition one_available (strict : bool) : Redis.world :=
  store_of [(available_key, Json.stringify the_job)] strict.


Definition failed_key : string := "jobs_failed:q/u1".


(** Two workers poll the same queue, each through a driver of its own. *)
Definition two_callers : list (Redis.prog (result json * Redis.driver)) :=
  [RedisDriver.getJob "q" Redis.fresh; RedisDriver.getJob "q" Redis.fresh].

(** Each caller connects, lists the keys of the queue and reads the job (three
    commands); then the first one reads the clock, takes the lock, looks the
    key up, deletes it, writes the reserved key and unlocks (six commands),
    and the second one does the same. *)
Definition both_read_first : list nat :=
  [0; 0; 0; 1; 1; 1; 0; 0; 0; 0; 0; 0; 1; 1; 1; 1; 1; 1]%nat.

(** A table at time 200. *)
Definition table_of (t : Sqlite.table) (f : Sqlite.faults) : Sqlite.world :=
  Sqlite.mkWorld t None false 200 f.

Definition the_row (reserved_at failed_at : option Z) : Sqlite.row :=
  Sqlite.mkJob "u1" "q" (Json.stringify the_payload) 100 reserved_at failed_at.

Definition the_sqlite_job (reserved_at failed_at : option Z) : Sqlite.Job :=
  Sqlite.mkJob "u1" "q" the_payload 100 reserved_at failed_at.

Definition begin_fails : Sqlite.faults :=
  Sqlite.mkFaults false true false false false false false.

(** A value with every kind of JSON data in it. *)
Definition sample : json :=
  JObj [("uuid", JStr "u1"); ("n", JNum (-42)); ("l", JArr [JNull; JBool true; JStr "a\b"]);
        ("o", JObj [])].

(** Handlers: one returns 42, one throws "boom"; each counts its calls. *)
Definition returns_42 : json -> nat -> result Z * nat :=
  fun _ calls => (Ok 42%Z, S calls).

Definition boom : error := Error "boom".

Definition throws_boom : json -> nat -> result Z * nat :=
  fun _ calls => (Exn boom, S calls).

End Scenario.

(* ================================================================== *)
(** * The vocabulary of the further properties *)
(* ================================================================== *)

(** Key patterns without pattern characters. *)
Module KeyNames.
Import Glob.

(** The characters that mean something in a key pattern. *)
Definition special (c : ascii) : bool :=
  Ascii.eqb c "*" || Ascii.eqb c "?" || Ascii.eqb c "[" || Ascii.eqb c "\".

Fixpoint plain (s : string) : bool :=
  match s with
  | EmptyString => true
  | String c s' => negb (special c) && plain s'
  end.

(** How the match goes on once a character has been consumed. *)
Definition after (p s : string) : bool :=
  match s with
  | EmptyString => all_stars p
  | String _ _ => matches Normal p s
  end.

Fixpoint any_suffix (p s : string) : bool :=
  match s with
  | EmptyString => false
  | String _ s' => matches Normal p s || any_suffix p s'
  end.

End KeyNames.

(** The relational driver. *)
Module SqliteWords.
Import Sqlite.




Definition fetch (q : query) : M (option Job) :=
  bind Sqlite3Driver.getNewConnection (fun _ => Sqlite3Driver.reserveJob q).

Definition failed_row (ts : Z) (r : row) : row :=
  mkJob (uuid r) (queue r) (payload r) (created_at r) None (Some ts).

Definition cannot_open : error := Err "SQLITE_CANTOPEN" "unable to open database file".



End SqliteWords.

(** The distributed-store driver. *)
Module RedisWords.
Import Redis.



(** The lock, the keys and the patterns of a job object that has neither a
    queue nor a uuid. *)
Definition nameless_lock : string := "jobs:locks:undefined/undefined".
Definition nameless_key (state : string) : string :=
  "jobs_" ++ state ++ ":undefined/undefined".
Definition nameless_pattern (state : string) : string :=
  "jobs_" ++ state ++ ":*undefined".

(** The patterns under which the calls look for a job of this queue and
    uuid. *)
Definition patterns_of (q u : string) : list string :=
  ["jobs_available:" ++ q ++ "/*"; "jobs_available:*" ++ u;
   "jobs_reserved:*" ++ u;
   "jobs_failed:" ++ q ++ "/*"; "jobs_failed:*" ++ u;
   "jobs_*" ++ u].

(** No key of the store matches any of them. *)
Definition unseen (q u : string) (d : list (string * string)) : Prop :=
  Forall (fun pattern => db_keys pattern d = []) (patterns_of q u).

End RedisWords.

(** The constructor of the facade [VerySimpleQueue]: it checks the name of
    the driver, and for the relational driver the file path, and builds the
    driver. *)
Module Facade.

(** What the constructor hands to a driver. *)
Inductive collaborator : Type :=
| Promisify                       (* util.promisify *)
| GetCurrentTimestamp             (* require('./helpers/getCurrentTimestamp') *)
| Sqlite3                         (* require('sqlite3') *)
| RedisLibrary                    (* require('redis') *)
| RedLock                         (* require('redlock') *)
| DriverConfig (driverConfig : value).

Inductive driver_class : Type :=
| NewSqlite3Driver
| NewRedisDriver.

(** [new Class(arguments...)] *)
Record construction : Type := mkConstruction {
  class : driver_class;
  arguments : list collaborator
}.

Definition supportedDrivers : list string := ["sqlite3"; "redis"].

Definition includes (x : string) (l : list string) : bool :=
  existsb (String.eqb x) l.

(** [drivers.sqlite3]: reading [filePath] of a configuration that is
    [undefined] or [null] throws; [===] holds for the string [':memory:']
    only. *)
Definition sqlite3 (driverConfig : value) : result construction :=
  match driverConfig with
  | None =>
      Exn (TypeError "Cannot read properties of undefined (reading 'filePath')")
  | Some JNull =>
      Exn (TypeError "Cannot read properties of null (reading 'filePath')")
  | Some config =>
      let build :=
        Ok (mkConstruction NewSqlite3Driver
              [Promisify; GetCurrentTimestamp; Sqlite3; DriverConfig driverConfig]) in
      match get_field "filePath" config with
      | Some (JStr filePath) =>
          if String.eqb filePath ":memory:"
          then Exn (Error ":memory: is not supported")
          else build
      | _ => build
      end
  end.

(** [drivers.redis] *)
Definition redis (driverConfig : value) : result construction :=
  Ok (mkConstruction NewRedisDriver
        [Promisify; GetCurrentTimestamp; RedisLibrary; DriverConfig driverConfig; RedLock]).

(** [constructor(driverName, driverConfig)], up to the driver it builds;
    [drivers[driverName]()] is one of the two functions once the name has
    passed the check.  The queue client that is then built around the driver
    belongs to another module. *)
Definition constructor (driverName : string) (driverConfig : value)
  : result construction :=
  if negb (includes driverName supportedDrivers)
  then Exn (Error "Driver not supported")
  else if String.eqb driverName "sqlite3" then sqlite3 driverConfig
  else redis driverConfig.

(** The parameters of the constructors of the two drivers, in order. *)
Definition parameters (c : driver_class) : list string :=
  match c with
  | NewSqlite3Driver => ["promisify"; "getCurrentTimestamp"; "sqlite3"; "fileName"]
  | NewRedisDriver => ["getCurrentTimestamp"; "redis"; "redisConfig"; "Redlock"]
  end.

(** What a parameter of the driver's constructor is bound to: arguments are
    bound by position, and an argument beyond the last parameter is bound to
    none. *)
Fixpoint bound (parameter : string) (params : list string) (args : list collaborator)
  : option collaborator :=
  match params, args with
  | p :: params', a :: args' =>
      if String.eqb parameter p then Some a else bound parameter params' args'
  | _, _ => None
  end.

Definition received (c : construction) (parameter : string) : option collaborator :=
  bound parameter (parameters (class c)) (arguments c).

End Facade.

(* ================================================================== *)
(** * JSON text: what is written parses back *)
(* ================================================================== *)

Module JsonFacts.
Import Json.

Lemma append_assoc (a b c : string) : (a ++ b) ++ c = a ++ (b ++ c).
Proof. induction a; simpl; congruence. Qed.

Lemma parse_escape_char (c : ascii) (t : string) :
  parse_string_body (escape_char c ++ t) = push c (parse_string_body t).
Proof.
  destruct c as [b0 b1 b2 b3 b4 b5 b6 b7].
  destruct b0, b1, b2, b3, b4, b5, b6, b7; reflexivity.
Qed.

Lemma parse_escape (s rest : string) :
  parse_string_body (escape s ++ String dquote rest) = Some (s, rest).
Proof.
  induction s as [|c s IH]; simpl.
  - reflexivity.
  - rewrite append_assoc, parse_escape_char, IH. reflexivity.
Qed.

Lemma digits_prefix_uint (d : Decimal.uint) (rest : string) :
  digit_free_head rest ->
  digits_prefix (NilEmpty.string_of_uint d ++ rest) = (NilEmpty.string_of_uint d, rest).
Proof.
  intros Hrest. induction d; simpl; try (rewrite IHd; reflexivity).
  destruct rest as [|c r]; simpl in *; [reflexivity | now rewrite Hrest].
Qed.

Lemma parse_unsigned_uint (neg : bool) (d : Decimal.uint) (rest : string) :
  d <> Decimal.Nil -> digit_free_head rest ->
  parse_unsigned neg (NilEmpty.string_of_uint d ++ rest)
  = Some (JNum (Z.of_int (if neg then Decimal.Neg d else Decimal.Pos d)), rest).
Proof.
  intros Hd Hrest. unfold parse_unsigned.
  rewrite digits_prefix_uint by assumption.
  rewrite NilEmpty.usu.
  destruct d; simpl; try reflexivity. contradiction.
Qed.

Lemma parse_number_unsigned (d : Decimal.uint) (rest : string) :
  d <> Decimal.Nil ->
  parse_number (NilEmpty.string_of_uint d ++ rest)
  = parse_unsigned false (NilEmpty.string_of_uint d ++ rest).
Proof.
  intros Hd. destruct d; try reflexivity. contradiction.
Qed.

Lemma parse_number_print (z : Z) (rest : string) :
  digit_free_head rest ->
  parse_number (print_Z z ++ rest) = Some (JNum z, rest).
Proof.
  intros Hrest. unfold print_Z.
  rewrite <- (DecimalZ.of_to z) at 2.
  destruct z as [|p|p].
  - refine (eq_trans (parse_number_unsigned (Decimal.D0 Decimal.Nil) rest _) _);
      [discriminate|].
    apply (parse_unsigned_uint false); [discriminate | assumption].
  - refine (eq_trans (parse_number_unsigned (Pos.to_uint p) rest _) _);
      [apply Unsigned.to_uint_nonnil|].
    apply (parse_unsigned_uint false); [apply Unsigned.to_uint_nonnil | assumption].
  - change (parse_unsigned true (NilEmpty.string_of_uint (Pos.to_uint p) ++ rest)
            = Some (JNum (Z.of_int (Decimal.Neg (Pos.to_uint p))), rest)).
    apply (parse_unsigned_uint true); [apply Unsigned.to_uint_nonnil | assumption].
Qed.

Lemma print_Z_head (z : Z) :
  exists c t, print_Z z = String c t /\ (is_digit c = true \/ c = "-"%char).
Proof.
  unfold print_Z. destruct z as [|p|p]; simpl.
  - exists "0"%char, EmptyString. split; [reflexivity | now left].
  - pose proof (Unsigned.to_uint_nonnil p) as Hn.
    destruct (Pos.to_uint p); try contradiction; simpl;
      eexists; eexists; (split; [reflexivity | now left]).
  - eexists; eexists; split; [reflexivity | now right].
Qed.

Lemma stringify_head (v : json) :
  exists c t, stringify v = String c t /\ c <> "]"%char.
Proof.
  destruct v as [|[]|z|s|l|fs]; simpl;
    try (eexists; eexists; split; [reflexivity | discriminate]).
  destruct (print_Z_head z) as (c & t & -> & [Hd | ->]).
  - exists c, t. split; [reflexivity|]. intros ->. discriminate.
  - exists "-"%char, t. split; [reflexivity | discriminate].
Qed.

Lemma parse_value_bracket (f : nat) (c : ascii) (t : string) :
  c <> "]"%char ->
  parse_value (S f) (String "[" (String c t))
  = match parse_items f (String c t) with
    | Some (l, r) => Some (JArr l, r)
    | None => None
    end.
Proof.
  intros Hc. destruct c as [b0 b1 b2 b3 b4 b5 b6 b7].
  destruct b0, b1, b2, b3, b4, b5, b6, b7; try reflexivity.
  now contradiction Hc.
Qed.

Lemma parse_value_number (f : nat) (z : Z) (rest : string) :
  parse_value (S f) (print_Z z ++ rest) = parse_number (print_Z z ++ rest).
Proof.
  destruct (print_Z_head z) as (c & t & -> & [Hd | ->]); [|reflexivity].
  destruct c as [b0 b1 b2 b3 b4 b5 b6 b7].
  destruct b0, b1, b2, b3, b4, b5, b6, b7; try discriminate Hd; reflexivity.
Qed.

Lemma parse_items_join (l : list json) :
  Forall parses l -> l <> [] ->
  forall fuel rest, sizes l <= fuel ->
    parse_items fuel (join "," (map stringify l) ++ String "]" rest) = Some (l, rest).
Proof.
  induction 1 as [|x l Hx Hl IH]; intros Hne fuel rest Hfuel; [contradiction|].
  unfold sizes in Hfuel; simpl in Hfuel; fold (sizes l) in Hfuel.
  destruct fuel as [|fuel]; [lia|].
  destruct l as [|y l'].
  - simpl. rewrite Hx; [reflexivity | lia | reflexivity].
  - change (join "," (map stringify (x :: y :: l')))
      with (stringify x ++ "," ++ join "," (map stringify (y :: l'))).
    rewrite append_assoc. simpl parse_items.
    rewrite Hx; [| lia | reflexivity].
    change (("," ++ join "," (map stringify (y :: l'))) ++ String "]" rest)
      with (String "," (join "," (map stringify (y :: l')) ++ String "]" rest)).
    cbv iota beta.
    rewrite IH; [reflexivity | discriminate | lia].
Qed.

Lemma parse_members_join (fs : list (string * json)) :
  Forall (fun kv => parses (snd kv)) fs -> fs <> [] ->
  forall fuel rest, msizes fs <= fuel ->
    parse_members fuel (join "," (map member fs) ++ String "}" rest) = Some (fs, rest).
Proof.
  induction 1 as [|[k v] fs Hx Hl IH]; intros Hne fuel rest Hfuel; [contradiction|].
  unfold msizes in Hfuel; simpl in Hfuel; fold (msizes fs) in Hfuel.
  destruct fuel as [|fuel]; [lia|].
  simpl in Hx.
  assert (Hmember : forall tail, digit_free_head tail ->
            member (k, v) ++ tail
            = String dquote (escape k ++ String dquote (String ":" (stringify v ++ tail)))).
  { intros tail _. unfold member, quote. simpl.
    rewrite !append_assoc. simpl. reflexivity. }
  destruct fs as [|kv fs'].
  - simpl join. rewrite Hmember by reflexivity.
    simpl parse_members. rewrite parse_escape.
    rewrite Hx; [reflexivity | lia | reflexivity].
  - change (join "," (map member ((k, v) :: kv :: fs')))
      with (member (k, v) ++ "," ++ join "," (map member (kv :: fs'))).
    rewrite append_assoc. rewrite Hmember by reflexivity.
    simpl parse_members. rewrite parse_escape.
    rewrite Hx; [| lia | reflexivity].
    change (("," ++ join "," (map member (kv :: fs'))) ++ String "}" rest)
      with (String "," (join "," (map member (kv :: fs')) ++ String "}" rest)).
    cbv iota beta.
    rewrite IH; [reflexivity | discriminate | lia].
Qed.

Lemma stringify_array (l : list json) (rest : string) :
  stringify (JArr l) ++ rest
  = String "[" (join "," (map stringify l) ++ String "]" rest).
Proof.
  change (stringify (JArr l)) with ("[" ++ (join "," (map stringify l) ++ "]")).
  simpl. rewrite append_assoc. reflexivity.
Qed.

Lemma stringify_object (fs : list (string * json)) (rest : string) :
  stringify (JObj fs) ++ rest
  = String "{" (join "," (map member fs) ++ String "}" rest).
Proof.
  change (stringify (JObj fs)) with ("{" ++ (join "," (map member fs) ++ "}")).
  simpl. rewrite append_assoc. reflexivity.
Qed.

Lemma join_head (c : ascii) (t : string) (x : string) (l : list string) (tail : string) :
  x = String c t -> exists t', join "," (x :: l) ++ tail = String c t'.
Proof.
  intros ->. destruct l; simpl; eexists; reflexivity.
Qed.

Lemma parse_value_stringify (v : json) : parses v.
Proof.
  induction v as [|b|z|s|l IH|fs IH] using json_nested_ind;
    intros fuel rest Hfuel Hrest;
    (destruct fuel as [|fuel]; [simpl in Hfuel; lia|]).
  - reflexivity.
  - destruct b; reflexivity.
  - simpl stringify. rewrite parse_value_number. now apply parse_number_print.
  - simpl. unfold quote. simpl. rewrite append_assoc. simpl.
    rewrite parse_escape. reflexivity.
  - rewrite stringify_array. destruct l as [|x l'].
    + reflexivity.
    + destruct (stringify_head x) as (c & t & Hx & Hc).
      destruct (join_head c t (stringify x) (map stringify l') (String "]" rest) Hx)
        as (t' & Ht').
      change (stringify x :: map stringify l') with (map stringify (x :: l')) in Ht'.
      rewrite Ht'. rewrite parse_value_bracket by assumption. rewrite <- Ht'.
      rewrite parse_items_join; [reflexivity | assumption | discriminate |].
      simpl in Hfuel. unfold sizes. simpl. lia.
  - rewrite stringify_object. destruct fs as [|[k v] fs'].
    + reflexivity.
    + assert (Hhd : exists t',
                 join "," (map member ((k, v) :: fs')) ++ String "}" rest
                 = String dquote t').
      { apply (join_head dquote (escape k ++ String dquote (":" ++ stringify v))).
        unfold member, quote. simpl. rewrite append_assoc. reflexivity. }
      destruct Hhd as (t' & Ht').
      rewrite Ht'. simpl parse_value. rewrite <- Ht'.
      rewrite parse_members_join; [reflexivity | assumption | discriminate |].
      simpl in Hfuel. unfold msizes. simpl. lia.
Qed.

Lemma length_append (a b : string) :
  String.length (a ++ b) = String.length a + String.length b.
Proof. induction a; simpl; congruence. Qed.

Lemma length_cons (c : ascii) (s : string) :
  String.length (String c s) = S (String.length s).
Proof. reflexivity. Qed.

Lemma append_empty (a : string) : a ++ EmptyString = a.
Proof. induction a; simpl; congruence. Qed.

Lemma join_cons2 (x y : string) (l : list string) :
  join "," (x :: y :: l) = x ++ String "," (join "," (y :: l)).
Proof. reflexivity. Qed.

Lemma length_join_sizes (l : list json) :
  Forall (fun v => size v <= String.length (stringify v)) l ->
  sizes l <= S (String.length (join "," (map stringify l))).
Proof.
  induction 1 as [|x l Hx Hl IH]; [simpl; lia|].
  change (sizes (x :: l)) with (S (size x + sizes l)).
  destruct l as [|y l'].
  - simpl. lia.
  - change (map stringify (x :: y :: l'))
      with (stringify x :: stringify y :: map stringify l').
    rewrite join_cons2, length_append.
    change (stringify y :: map stringify l') with (map stringify (y :: l')).
    change (String.length (String "," (join "," (map stringify (y :: l')))))
      with (S (String.length (join "," (map stringify (y :: l'))))).
    simpl in Hx. lia.
Qed.

Lemma length_join_msizes (fs : list (string * json)) :
  Forall (fun kv => size (snd kv) <= String.length (stringify (snd kv))) fs ->
  msizes fs <= S (String.length (join "," (map member fs))).
Proof.
  assert (Hm : forall kv, S (String.length (stringify (snd kv))) <= String.length (member kv)).
  { intros kv. unfold member, quote. rewrite !length_append, !length_cons. lia. }
  induction 1 as [|x l Hx Hl IH]; [simpl; lia|].
  change (msizes (x :: l)) with (S (size (snd x) + msizes l)).
  specialize (Hm x).
  destruct l as [|y l'].
  - change (join "," (map member [x])) with (member x).
    change (msizes []) with 0. simpl in Hx. lia.
  - change (map member (x :: y :: l')) with (member x :: member y :: map member l').
    rewrite join_cons2, length_append.
    change (member y :: map member l') with (map member (y :: l')).
    change (String.length (String "," (join "," (map member (y :: l')))))
      with (S (String.length (join "," (map member (y :: l'))))).
    simpl in Hx. lia.
Qed.

Lemma size_le_length (v : json) : size v <= String.length (stringify v).
Proof.
  induction v as [|b|z|s|l IH|fs IH] using json_nested_ind.
  - simpl. lia.
  - destruct b; simpl; lia.
  - simpl. destruct (print_Z_head z) as (c & t & -> & _). simpl. lia.
  - simpl. lia.
  - pose proof (length_join_sizes l IH) as Hl.
    pose proof (stringify_array l EmptyString) as Hs.
    rewrite append_empty in Hs. rewrite Hs.
    simpl String.length. rewrite length_append. simpl. unfold sizes in Hl. lia.
  - pose proof (length_join_msizes fs IH) as Hl.
    pose proof (stringify_object fs EmptyString) as Hs.
    rewrite append_empty in Hs. rewrite Hs.
    simpl String.length. rewrite length_append. simpl. unfold msizes in Hl. lia.
Qed.

Theorem parse_stringify (v : json) : Json.parse (Json.stringify v) = Some v.
Proof.
  unfold parse.
  pose proof (parse_value_stringify v (S (String.length (stringify v))) EmptyString) as H.
  rewrite append_empty in H. rewrite H; [reflexivity | | exact I].
  pose proof (size_le_length v). lia.
Qed.

End JsonFacts.

Module JsonTests.
Import Json Scenario.
Example stringify_sample :
  stringify sample =
  ("{" ++ quote "uuid" ++ ":" ++ quote "u1" ++ "," ++ quote "n" ++ ":-42,"
       ++ quote "l" ++ ":[null,true," ++ String dquote "a\\b" ++ String dquote "],"
       ++ quote "o" ++ ":{}}").
Proof. reflexivity. Qed.
Example parse_sample : parse (stringify sample) = Some sample.
Proof. vm_compute. reflexivity. Qed.
Example parse_junk : parse "{oops" = None.
Proof. reflexivity. Qed.
End JsonTests.

Module GlobTests.
Import Glob.
Example glob_queue : glob "jobs_available:q/*" "jobs_available:q/u1" = true.
Proof. reflexivity. Qed.
Example glob_other_queue : glob "jobs_available:q/*" "jobs_available:r/u1" = false.
Proof. reflexivity. Qed.
Example glob_uuid : glob "jobs_available:*/u1" "jobs_available:q/u1" = true.
Proof. reflexivity. Qed.
Example glob_any_state : glob "jobs_*u1" "jobs_reserved:q/u1" = true.
Proof. reflexivity. Qed.
Example glob_suffix : glob "jobs_*1" "jobs_reserved:q/11" = true.
Proof. reflexivity. Qed.
Example glob_lock : glob "jobs_*u1" "jobs:locks:q/u1" = false.
Proof. reflexivity. Qed.
Example glob_class : glob "a[b-d]e" "ace" = true /\ glob "a[^b-d]e" "ace" = false.
Proof. split; reflexivity. Qed.
End GlobTests.

(* ================================================================== *)
(** * The distributed-store driver, call by call *)
(* ================================================================== *)

Module RedisFacts.
Import Redis RedisDriver RedisCalls.
Local Open Scope redis_scope.

Lemma run_pbind {A B : Type} (p : prog A) (f : A -> prog B) (w : world) :
  run (pbind p f) w = let (a, w') := run p w in run (f a) w'.
Proof.
  revert w. induction p as [a|T c k IH]; intros w; simpl.
  - reflexivity.
  - destruct (exec c w) as [b w']. apply IH.
Qed.

Lemma run_bind {A B : Type} (m : M A) (f : A -> M B) (d : driver) (w : world) :
  run (bind m f d) w =
  match run (m d) w with
  | (Ok a, d', w') => run (f a d') w'
  | (Exn e, d', w') => (Exn e, d', w')
  end.
Proof.
  unfold bind. rewrite run_pbind.
  destruct (run (m d) w) as [[[a|e] d'] w']; reflexivity.
Qed.

Lemma run_try_catch {A : Type} (m : M A) (h : error -> M A) (d : driver) (w : world) :
  run (try_catch m h d) w =
  match run (m d) w with
  | (Ok a, d', w') => (Ok a, d', w')
  | (Exn e, d', w') => run (h e d') w'
  end.
Proof.
  unfold try_catch. rewrite run_pbind.
  destruct (run (m d) w) as [[[a|e] d'] w']; reflexivity.
Qed.

Lemma run_ret {A : Type} (a : A) (d : driver) (w : world) :
  run (ret a d) w = (Ok a, d, w).
Proof. reflexivity. Qed.

Lemma run_throw {A : Type} (e : error) (d : driver) (w : world) :
  run (@throw A e d) w = (Exn e, d, w).
Proof. reflexivity. Qed.

Lemma run_call {B : Type} (c : cmd B) (d : driver) (w : world) :
  run (call c d) w = (Ok (fst (exec c w)), d, snd (exec c w)).
Proof. unfold call. simpl. destruct (exec c w); reflexivity. Qed.

Lemma run_deref (method : string) (d : driver) (w : world) :
  run (deref method d) w =
  (match connection d with
   | Some _ => Ok tt
   | None => Exn (no_connection method)
   end, d, w).
Proof. unfold deref. destruct (connection d); reflexivity. Qed.

Lemma run_settle {A : Type} (m : M (result A)) (d : driver) (w : world) :
  run (settle m d) w =
  match run (m d) w with
  | (Ok (Ok a), d', w') => (Ok a, d', w')
  | (Ok (Exn e), d', w') => (Exn e, d', w')
  | (Exn e, d', w') => (Exn e, d', w')
  end.
Proof.
  unfold settle. rewrite run_bind.
  destruct (run (m d) w) as [[[[a|e]|e] d'] w']; reflexivity.
Qed.

Lemma driver_cases (d : driver) : d = fresh \/ d = connected.
Proof. destruct d as [[[]|]]; [right | left]; reflexivity. Qed.

Lemma run_setConnection (d : driver) (w : world) :
  run (setConnection d) w = (Ok tt, connected, w).
Proof. destruct (driver_cases d) as [-> | ->]; reflexivity. Qed.

Lemma run_getJobKeyByPattern (pattern : string) (w : world) :
  run (getJobKeyByPattern pattern connected) w
  = (Ok (first_key pattern (db w)), connected, w).
Proof. reflexivity. Qed.

Lemma run_getJobKeyByPattern_fresh (pattern : string) (w : world) :
  run (getJobKeyByPattern pattern fresh) w = (Exn (no_connection "keys"), fresh, w).
Proof. reflexivity. Qed.

Lemma run_getJobByKey (key : string) (w : world) :
  run (getJobByKey key connected) w = (decode (db_get key (db w)), connected, w).
Proof.
  unfold getJobByKey, on_connection. rewrite run_bind, run_bind, run_deref, run_call.
  simpl. unfold decode.
  destruct (db_get key (db w)) as [text|]; [|reflexivity].
  destruct (String.eqb text EmptyString); [reflexivity|].
  destruct (Json.parse text); reflexivity.
Qed.

Lemma run_getJobByPattern (pattern : string) (w : world) :
  run (getJobByPattern pattern connected) w
  = (match first_key pattern (db w) with
     | Some k => decode (db_get k (db w))
     | None => Ok JNull
     end, connected, w).
Proof.
  unfold getJobByPattern. rewrite run_bind, run_getJobKeyByPattern.
  destruct (first_key pattern (db w)); [apply run_getJobByKey | reflexivity].
Qed.

Lemma exec_lock (r : string) (w : world) :
  exec (Lock r) w =
  if mem r (held w) then (Exn (Error "LockError"), w)
  else (Ok r, with_held w (r :: held w)).
Proof. reflexivity. Qed.

Lemma run_markJob (job : json) (mark currentState : string) (w : world) :
  run (markJob job mark currentState connected) w
  = (fst (moved job mark currentState w), connected, snd (moved job mark currentState w)).
Proof.
  unfold markJob, moved. fold (lock_name job).
  rewrite run_bind, run_call, exec_lock.
  destruct (mem (lock_name job) (held w)) eqn:Hheld; cbn [fst snd].
  - reflexivity.
  - rewrite run_bind, run_try_catch.
    rewrite run_bind, run_deref. cbn [connection connected].
    rewrite run_bind, run_deref. cbn [connection connected].
    rewrite run_bind, run_getJobKeyByPattern.
    fold (source_pattern currentState job). fold (state_key mark job).
    change (db (with_held w (lock_name job :: held w))) with (db w).
    destruct (first_key (source_pattern currentState job) (db w)) as [k|].
    + rewrite run_bind, run_settle, run_call. reflexivity.
    + rewrite run_bind, run_settle, run_call.
      change (exec (Del None) (with_held w (lock_name job :: held w)))
        with (if strict_keys w
              then (Exn (TypeError "Invalid argument type"),
                    with_held w (lock_name job :: held w))
              else (Ok tt, with_held w (lock_name job :: held w))).
      destruct (strict_keys w) eqn:Hs; cbn [fst snd].
      * rewrite run_bind, run_call. reflexivity.
      * rewrite run_call. reflexivity.
Qed.

Lemma run_reserveJob (job : json) (w : world) :
  run (reserveJob job connected) w
  = (match fst (moved (reserved_copy job (now w)) "reserved" (current_state job) w) with
     | Ok _ => Ok (reserved_copy job (now w))
     | Exn _ => Ok JNull
     end, connected,
     snd (moved (reserved_copy job (now w)) "reserved" (current_state job) w)).
Proof.
  unfold reserveJob. rewrite run_bind, run_call. cbn [exec fst snd].
  fold (current_state job). fold (reserved_copy job (now w)).
  rewrite run_try_catch, run_bind, run_markJob.
  destruct (moved (reserved_copy job (now w)) "reserved" (current_state job) w)
    as [[[]|e] w']; reflexivity.
Qed.

Lemma run_failJob (job : json) (w : world) :
  run (failJob job connected) w
  = (fst (moved (failed_copy job (now w)) "failed" "reserved" w), connected,
     snd (moved (failed_copy job (now w)) "failed" "reserved" w)).
Proof.
  unfold failJob. rewrite run_bind, run_call. cbn [exec fst snd].
  fold (failed_copy job (now w)). apply run_markJob.
Qed.

Lemma run_fetch (pattern : string) (w : world) :
  run (getJobByPattern pattern connected) w = (fetch pattern w, connected, w).
Proof. apply run_getJobByPattern. Qed.

Lemma run_getJob (queue : string) (d : driver) (w : world) :
  run (getJob queue d) w =
  match fetch ("jobs_available:" ++ queue ++ "/*") w with
  | Ok job =>
      if truthy (Some job) then run (reserveJob job connected) w
      else (Ok JNull, connected, w)
  | Exn e => (Exn e, connected, w)
  end.
Proof.
  unfold getJob. rewrite run_bind, run_setConnection, run_bind, run_fetch.
  destruct (fetch ("jobs_available:" ++ queue ++ "/*") w) as [job|e]; [|reflexivity].
  destruct (truthy (Some job)); reflexivity.
Qed.

Lemma run_getJobByUuid (jobUuid : string) (d : driver) (w : world) :
  run (getJobByUuid jobUuid d) w =
  match fetch ("jobs_available:*/" ++ jobUuid) w with
  | Ok job => run (reserveJob job connected) w
  | Exn e => (Exn e, connected, w)
  end.
Proof.
  unfold getJobByUuid. rewrite run_bind, run_setConnection, run_bind, run_fetch.
  destruct (fetch ("jobs_available:*/" ++ jobUuid) w); reflexivity.
Qed.

Lemma run_getFailedJob (queue : string) (w : world) :
  run (getFailedJob queue connected) w =
  match fetch ("jobs_failed:" ++ queue ++ "/*") w with
  | Ok job => run (reserveJob job connected) w
  | Exn e => (Exn e, connected, w)
  end.
Proof.
  unfold getFailedJob. rewrite run_bind, run_fetch.
  destruct (fetch ("jobs_failed:" ++ queue ++ "/*") w); reflexivity.
Qed.

Lemma run_markJobAsFailed (jobUuid : string) (w : world) :
  run (markJobAsFailed jobUuid connected) w =
  match fetch ("jobs_reserved:*" ++ jobUuid) w with
  | Ok job => run (failJob job connected) w
  | Exn e => (Exn e, connected, w)
  end.
Proof.
  unfold markJobAsFailed. rewrite run_bind, run_fetch.
  destruct (fetch ("jobs_reserved:*" ++ jobUuid) w); reflexivity.
Qed.

Lemma run_deleteJob (jobUuid : string) (w : world) :
  run (deleteJob jobUuid connected) w =
  match first_key ("jobs_*" ++ jobUuid) (db w) with
  | Some k => (Ok tt, connected, with_db w (db_del k (db w)))
  | None =>
      if strict_keys w
      then (Exn (TypeError "Invalid argument type"), connected, w)
      else (Ok tt, connected, w)
  end.
Proof.
  unfold deleteJob. rewrite run_bind, run_getJobKeyByPattern.
  rewrite run_bind, run_deref. cbn [connection connected].
  rewrite run_settle, run_call.
  destruct (first_key ("jobs_*" ++ jobUuid) (db w)) as [k|]; [reflexivity|].
  cbn [exec]. destruct (strict_keys w); reflexivity.
Qed.

Lemma run_storeJob (job : json) (d : driver) (w : world) :
  job <> JNull ->
  run (storeJob job d) w =
  (Ok tt, connected,
   match db_get (stored_key job) (db w) with
   | Some _ => w
   | None => with_db w (db_set (stored_key job) (Json.stringify job) (db w))
   end).
Proof.
  intros Hjob. unfold storeJob.
  rewrite run_bind, run_setConnection, run_bind, run_deref. cbn [connection connected].
  fold (stored_key job).
  destruct job; try contradiction; rewrite run_call; cbn [exec];
    destruct (db_get _ (db w)); reflexivity.
Qed.

Lemma run_delete_each (keys : list string) (w : world) :
  run (delete_each keys connected) w
  = (Ok tt, connected, with_db w (fold_left (fun d k => db_del k d) keys (db w))).
Proof.
  revert w. induction keys as [|k keys IH]; intros w.
  - destruct w; reflexivity.
  - cbn [delete_each]. rewrite run_bind, run_settle, run_call. cbn [exec fst snd].
    rewrite IH. reflexivity.
Qed.

Lemma run_deleteAllJobs (d : driver) (w : world) :
  run (deleteAllJobs d) w
  = (Ok tt, connected,
     with_db w (fold_left (fun d k => db_del k d) (db_keys "*" (db w)) (db w))).
Proof.
  unfold deleteAllJobs.
  rewrite run_bind, run_setConnection, run_bind, run_deref. cbn [connection connected].
  rewrite run_bind, run_call. cbn [exec fst snd].
  rewrite run_bind, run_deref. cbn [connection connected].
  apply run_delete_each.
Qed.

(** ** The key space *)




Lemma db_get_set_same (k v : string) (d : list (string * string)) :
  db_get k (db_set k v d) = Some v.
Proof.
  induction d as [|[k' v'] d IH]; cbn.
  - now rewrite String.eqb_refl.
  - destruct (String.eqb k k') eqn:Hk; cbn.
    + now rewrite String.eqb_refl.
    + now rewrite Hk.
Qed.

Lemma db_get_set_other (k k' v : string) (d : list (string * string)) :
  k <> k' -> db_get k (db_set k' v d) = db_get k d.
Proof.
  intros Hne. induction d as [|[k1 v1] d IH]; cbn.
  - apply String.eqb_neq in Hne. now rewrite Hne.
  - destruct (String.eqb_spec k' k1) as [->|Hk1]; cbn.
    + apply String.eqb_neq in Hne. now rewrite Hne.
    + destruct (String.eqb k k1); [reflexivity | assumption].
Qed.

Lemma db_get_del_same (k : string) (d : list (string * string)) :
  db_get k (db_del k d) = None.
Proof.
  induction d as [|[k1 v1] d IH]; cbn; [reflexivity|].
  destruct (String.eqb k k1) eqn:Hk; cbn; [assumption|].
  now rewrite Hk.
Qed.

Lemma db_get_del_other (k k' : string) (d : list (string * string)) :
  k <> k' -> db_get k (db_del k' d) = db_get k d.
Proof.
  intros Hne. induction d as [|[k1 v1] d IH]; cbn; [reflexivity|].
  destruct (String.eqb_spec k' k1) as [->|Hk1]; cbn.
  - apply String.eqb_neq in Hne. now rewrite Hne.
  - destruct (String.eqb k k1); [reflexivity | assumption].
Qed.

(** ** Objects *)

Lemma lookup_assign_same (k : string) (v : json) (fs : list (string * json)) :
  lookup k (assign k v fs) = Some v.
Proof.
  induction fs as [|[k' v'] fs IH]; cbn.
  - now rewrite String.eqb_refl.
  - destruct (String.eqb k k') eqn:Hk; cbn.
    + now rewrite String.eqb_refl.
    + now rewrite Hk.
Qed.

Lemma lookup_assign_other (k k' : string) (v : json) (fs : list (string * json)) :
  k <> k' -> lookup k (assign k' v fs) = lookup k fs.
Proof.
  intros Hne. induction fs as [|[k1 v1] fs IH]; cbn.
  - apply String.eqb_neq in Hne. now rewrite Hne.
  - destruct (String.eqb_spec k' k1) as [->|Hk1]; cbn.
    + apply String.eqb_neq in Hne. now rewrite Hne.
    + destruct (String.eqb k k1); [reflexivity | assumption].
Qed.

Lemma not_a_number (k : string) (z : Z) :
  starts_with_letter k -> String.eqb k (print_Z z) = false.
Proof.
  intros Hk. apply String.eqb_neq. intros ->.
  destruct (JsonFacts.print_Z_head z) as (c & t & Heq & Hc).
  rewrite Heq in Hk. cbn in Hk. destruct Hk as [Hd Hm].
  destruct Hc as [Hc | Hc]; congruence.
Qed.

Lemma lookup_index_from_id (k : string) (i : nat) (l : list json) :
  starts_with_letter k -> lookup k (index_from i l) = None.
Proof.
  intros Hk. revert i. induction l as [|x l IH]; intros i; cbn; [reflexivity|].
  unfold print_nat. rewrite not_a_number by assumption. apply IH.
Qed.

Lemma lookup_spread (k : string) (job : json) :
  starts_with_letter k -> lookup k (spread (Some job)) = get_field k job.
Proof.
  intros Hk. destruct job; cbn; try reflexivity; now apply lookup_index_from_id.
Qed.

Lemma get_field_reserved_copy (k : string) (job : json) (ts : Z) :
  starts_with_letter k -> k <> "reserved_at" -> k <> "failed_at" ->
  get_field k (reserved_copy job ts) = get_field k job.
Proof.
  intros Hk H1 H2. unfold reserved_copy. cbn [get_field].
  rewrite !lookup_assign_other by assumption. now apply lookup_spread.
Qed.

Lemma get_field_failed_copy (k : string) (job : json) (ts : Z) :
  starts_with_letter k -> k <> "reserved_at" -> k <> "failed_at" ->
  get_field k (failed_copy job ts) = get_field k job.
Proof.
  intros Hk H1 H2. unfold failed_copy. cbn [get_field].
  rewrite !lookup_assign_other by assumption. now apply lookup_spread.
Qed.

(** ** Every stored copy of a job keeps its payload *)

Import RedisOps.

Section Consistency.
Variable u : json.
Variable p : value.















End Consistency.

Import Lifecycle.

(** ** Every entry of the key space keeps a property that the writes of the
       driver have *)

Section Entries.
Variable P : string -> string -> Prop.
Hypothesis reserved_ok : forall j ts,
  P (state_key "reserved" (reserved_copy j ts)) (Json.stringify (reserved_copy j ts)).
Hypothesis failed_ok : forall j ts,
  P (state_key "failed" (failed_copy j ts)) (Json.stringify (failed_copy j ts)).







End Entries.










End RedisFacts.

(* ================================================================== *)
(** * The relational driver, call by call *)
(* ================================================================== *)

Module SqliteFacts.
Import Sqlite Sqlite3Driver SqliteCalls.

Lemma reserveJob_cases (q : query) (w : world) :
  pending w = None ->
  committed q w (reserveJob q w) \/ untouched w (reserveJob q w).
Proof.
  destruct w as [t pend sh n [fo fb fs fu fc fr fsh]]. cbn. intros ->.
  unfold committed, untouched, reserveJob, try_catch, bind, run, getRow, exec, select,
    parseJobResult, getCurrentTimestamp, ret, throw, current, write, with_pending, with_jobs.
  cbn.
  destruct fb; cbn.
  { destruct fr; cbn; right; split; eauto. }
  destruct fs; cbn.
  { destruct fr; cbn; right; split; eauto. }
  destruct (find (where_ q) t) as [raw|] eqn:Hfind; cbn.
  2:{ destruct fc; cbn; [destruct fr; cbn|]; right; split; eauto. }
  destruct (Json.parse (payload raw)) as [p|] eqn:Hp; cbn.
  2:{ destruct fr; cbn; right; split; eauto. }
  destruct fu; cbn.
  { destruct fr; cbn; right; split; eauto. }
  destruct fc; cbn.
  { destruct fr; cbn; right; split; eauto. }
  left. exists raw, p. repeat split; auto.
Qed.

Lemma fetch_cases (q : query) (w : world) :
  let out := (bind getNewConnection (fun _ => reserveJob q)) w in
  committed q w out \/ untouched w out.
Proof.
  unfold bind, getNewConnection. cbn zeta.
  destruct (f_open (fail w)).
  - right. split; [reflexivity | right; eexists; reflexivity].
  - apply (reserveJob_cases q (with_pending w None)). reflexivity.
Qed.

(** The shared connection: it opens, or the call fails before any statement. *)
Lemma shared_cases (w : world) :
  (exists e, setSharedConnection w = (Exn e, w))
  \/ (exists w', setSharedConnection w = (Ok tt, w') /\ jobs w' = jobs w
                 /\ now w' = now w /\ fail w' = fail w).
Proof.
  unfold setSharedConnection, getNewConnection.
  destruct (shared w); [right; eauto|].
  destruct (f_open (fail w)); [left; eauto | right; eauto].
Qed.

Lemma storeJob_cases (job : Job) (w : world) :
  let out := storeJob job w in
  ((exists e, fst out = Exn e) /\ jobs (snd out) = jobs w)
  \/ (fst out = Ok tt /\ has_uuid (uuid job) (jobs w) = false
      /\ jobs (snd out)
         = (jobs w ++ [mkJob (uuid job) (queue job) (Json.stringify (payload job))
                              (created_at job) None None])%list).
Proof.
  unfold storeJob, bind. cbn zeta.
  destruct (shared_cases w) as [(e & ->) | (w' & -> & Hj & _ & Hf)].
  - left. cbn. split; [eexists; reflexivity | reflexivity].
  - unfold run, exec. rewrite Hf, Hj.
    destruct (f_shared (fail w)); [left; cbn; split; [eexists; reflexivity | assumption]|].
    destruct (has_uuid (uuid job) (jobs w)) eqn:Hu; [left; cbn; split; [eexists; reflexivity | assumption]|].
    right. cbn. auto.
Qed.

Lemma deleteJob_cases (u : string) (w : world) :
  let out := deleteJob u w in
  ((exists e, fst out = Exn e) /\ jobs (snd out) = jobs w)
  \/ (fst out = Ok tt /\ jobs (snd out) = delete_reserved u (jobs w)).
Proof.
  unfold deleteJob, bind. cbn zeta.
  destruct (shared_cases w) as [(e & ->) | (w' & -> & Hj & _ & Hf)].
  - left. cbn. split; [eexists; reflexivity | reflexivity].
  - unfold run, exec. rewrite Hf, Hj.
    destruct (f_shared (fail w)); [left; cbn; split; [eexists; reflexivity | assumption]|].
    right. cbn. auto.
Qed.



Lemma in_set_reserved (ts : Z) (u : string) (t : table) (r' : row) :
  In r' (set_reserved ts u t) ->
  exists r, In r t /\ uuid r' = uuid r /\ queue r' = queue r /\ payload r' = payload r
            /\ created_at r' = created_at r /\ failed_at r' = failed_at r
            /\ reserved_at r' = (if String.eqb (uuid r) u then Some ts else reserved_at r).
Proof.
  unfold set_reserved. rewrite in_map_iff. intros (r & <- & Hin).
  exists r. destruct (String.eqb (uuid r) u); cbn; auto 10.
Qed.


Lemma in_delete_reserved (u : string) (t : table) (r : row) :
  In r (delete_reserved u t) <->
  In r t /\ ~ (reserved_at r <> None /\ uuid r = u).
Proof.
  unfold delete_reserved. rewrite filter_In. split; intros [Hin H]; split; trivial.
  - intros [Hr Hu]. subst u. rewrite String.eqb_refl in H.
    destruct (reserved_at r); [discriminate | contradiction].
  - destruct (reserved_at r) as [z|] eqn:Hr; cbn; [|reflexivity].
    destruct (String.eqb_spec (uuid r) u) as [Hu|Hu]; [|reflexivity].
    exfalso. apply H. split; [discriminate | assumption].
Qed.













End SqliteFacts.

(* ================================================================== *)
(** * The claims of the design document *)
(* ================================================================== *)

Module Claims.
Import Scenario.

(** ** C1: at-most-once reservation *)

(** C1.  The design document promises that concurrent fetch-and-reserve calls
    never hand one job to two callers.  In the distributed-store driver the job
    is read before the lock is taken and the move under the lock does not look
    at what its lookup found: with a client that lets [del(null)] pass, two
    callers that both read the available job before either moves it both
    return it. *)
Theorem C1_one_job_handed_to_two_callers :
  let out := Redis.interleave both_read_first two_callers (one_available false) in
  map Redis.returned (fst out)
  = [Some (Ok the_reserved_job, Redis.connected); Some (Ok the_reserved_job, Redis.connected)]
  /\ Redis.db (snd out) = [(reserved_key, Json.stringify the_reserved_job)].
Proof. vm_compute. split; reflexivity. Qed.

(** With a client that rejects [del(null)] the second caller of the same
    schedule falls into the [catch] of [#markJob] and gets [null]. *)
Lemma strict_client_second_caller_gets_null :
  map Redis.returned
    (fst (Redis.interleave both_read_first two_callers (one_available true)))
  = [Some (Ok the_reserved_job, Redis.connected); Some (Ok JNull, Redis.connected)].
Proof. vm_compute. reflexivity. Qed.

(** The relational driver does keep the promise for calls that follow one
    another: the row a reservation has committed matches none of the three
    queries. *)
Lemma sqlite_reserved_row_is_not_selected (q : Sqlite.query) (ts : Z) (u : string)
      (t : Sqlite.table) (r : Sqlite.row) :
  find (Sqlite.where_ q) (Sqlite.set_reserved ts u t) = Some r -> Sqlite.uuid r <> u.
Proof.
  intros Hfind Hu. apply find_some in Hfind. destruct Hfind as [Hin Hwhere].
  apply SqliteFacts.in_set_reserved in Hin.
  destruct Hin as (r0 & _ & Hu0 & _ & _ & _ & _ & Hres).
  rewrite <- Hu0, Hu, String.eqb_refl in Hres.
  destruct q; cbn in Hwhere; rewrite Hres in Hwhere; cbn in Hwhere;
    rewrite ?andb_false_r in Hwhere; discriminate.
Qed.

(** So a reservation that follows a committed one, whichever of the three
    queries either of them uses, hands out another job or none. *)
Lemma sqlite_next_reservation_gets_another_job (q1 q2 : Sqlite.query)
      (w w1 : Sqlite.world) (job job2 : Sqlite.Job) :
  Sqlite.bind Sqlite3Driver.getNewConnection (fun _ => Sqlite3Driver.reserveJob q1) w
  = (Ok (Some job), w1) ->
  fst (Sqlite.bind Sqlite3Driver.getNewConnection
         (fun _ => Sqlite3Driver.reserveJob q2) w1) = Ok (Some job2) ->
  Sqlite.uuid job2 <> Sqlite.uuid job.
Proof.
  intros H1 H2.
  destruct (SqliteFacts.fetch_cases q1 w) as [(raw & p & _ & _ & Hres & Hjobs) | (_ & Hres)];
    rewrite H1 in *; cbn [fst snd] in *.
  2:{ destruct Hres as [H | (e & H)]; discriminate. }
  injection Hres as ->.
  destruct (SqliteFacts.fetch_cases q2 w1)
    as [(raw2 & p2 & Hfind2 & _ & Hres2 & _) | (_ & Hres2)];
    rewrite H2 in *.
  2:{ destruct Hres2 as [H | (e & H)]; discriminate. }
  injection Hres2 as ->. cbn [SqliteCalls.parsed Sqlite.uuid].
  rewrite Hjobs in Hfind2.
  exact (sqlite_reserved_row_is_not_selected q2 _ _ _ _ Hfind2).
Qed.

(** ** C2: the existence check under the lock *)

(** C2.  The design document makes the existence check under the lock
    mandatory.  [#markJob] has none: here the available key is gone (another
    holder moved or deleted it), the lock is free, the client lets [del(null)]
    pass, and the driver writes the reserved key and returns the job. *)
Theorem C2_reserved_key_written_without_source_key :
  Redis.db_get available_key (Redis.db (store_of [] false)) = None
  /\ Redis.run (RedisDriver.reserveJob the_job Redis.connected) (store_of [] false)
     = (Ok the_reserved_job, Redis.connected,
        store_of [(reserved_key, Json.stringify the_reserved_job)] false).
Proof. vm_compute. split; reflexivity. Qed.

(** The same holds of every job, mark and store: when the lock is free and the
    client lets [del(null)] pass, [#markJob] writes the destination key whether
    or not its lookup found the source key. *)
Lemma markJob_writes_whatever_it_finds (job : json) (mark st : string) (w : Redis.world) :
  Redis.mem (RedisCalls.lock_name job) (Redis.held w) = false ->
  Redis.strict_keys w = false ->
  let out := Redis.run (RedisDriver.markJob job mark st Redis.connected) w in
  fst (fst out) = Ok tt
  /\ Redis.db_get (RedisCalls.state_key mark job) (Redis.db (snd out))
     = Some (Json.stringify job).
Proof.
  intros Hfree Hlenient. cbn zeta. rewrite RedisFacts.run_markJob. cbn [fst snd].
  unfold RedisCalls.moved. rewrite Hfree, Hlenient.
  destruct (Redis.first_key _ (Redis.db w)); cbn [fst snd Redis.db Redis.with_db];
    (split; [reflexivity | apply RedisFacts.db_get_set_same]).
Qed.

(** With a client that rejects [del(null)] the missing key ends the move in
    the [catch] block: the lock is released and the caller gets [null]. *)
Lemma strict_client_missing_source_key :
  Redis.run (RedisDriver.reserveJob the_job Redis.connected) (store_of [] true)
  = (Ok JNull, Redis.connected, store_of [] true).
Proof. vm_compute. reflexivity. Qed.

(** ** C3: one state per job; reserving a failed job *)







(** ** C4: fetch-and-reserve by uuid *)

(** C4.  The design document wants [getJobByUuid] to report "no job", and to
    write nothing, unless the uuid names an Available job.  Neither driver
    does: the relational query asks only for [reserved_at IS NULL], so a
    Failed job is reserved and returned; the distributed-store driver lacks
    the [if (!job) return null] of [getJob], so for a uuid that is not stored
    (and a client that lets [del(null)] pass) it writes the key
    [jobs_reserved:undefined/undefined] and returns an object. *)
Theorem C4_getJobByUuid_beyond_available_jobs :
  Sqlite3Driver.getJobByUuid "u1" (table_of [the_row None (Some 150%Z)] Sqlite.no_faults)
  = (Ok (Some (the_sqlite_job None (Some 150%Z))),
     table_of [the_row (Some 200%Z) (Some 150%Z)] Sqlite.no_faults)
  /\ Redis.run (RedisDriver.getJobByUuid "other" Redis.fresh) (one_available false)
     = (Ok (JObj [("reserved_at", JNum 200); ("failed_at", JNull)]), Redis.connected,
        store_of [(available_key, Json.stringify the_job);
                  ("jobs_reserved:undefined/undefined",
                   Json.stringify (JObj [("reserved_at", JNum 200); ("failed_at", JNull)]))]
                 false).
Proof. vm_compute. split; reflexivity. Qed.

(** In the cases that the relational query does exclude, the claim holds: no
    row with the uuid, or a row that is reserved, gives [null] and leaves the
    table as it was. *)
Lemma sqlite_getJobByUuid_without_unreserved_row (u : string) (w : Sqlite.world) :
  (forall r, In r (Sqlite.jobs w) -> Sqlite.uuid r = u -> Sqlite.reserved_at r <> None) ->
  let out := Sqlite3Driver.getJobByUuid u w in
  Sqlite.jobs (snd out) = Sqlite.jobs w /\ forall job, fst out <> Ok (Some job).
Proof.
  intros Hnone. cbn zeta.
  destruct (SqliteFacts.fetch_cases (Sqlite.SelectByUuid u) w)
    as [(raw & p & Hfind & _) | (Hjobs & Hres)];
    change (Sqlite.bind Sqlite3Driver.getNewConnection
              (fun _ => Sqlite3Driver.reserveJob (Sqlite.SelectByUuid u)) w)
      with (Sqlite3Driver.getJobByUuid u w) in *.
  - exfalso. apply find_some in Hfind. destruct Hfind as [Hin Hwhere].
    cbn in Hwhere. apply andb_prop in Hwhere. destruct Hwhere as [Hu Hnull].
    apply String.eqb_eq in Hu. apply (Hnone raw Hin Hu).
    destruct (Sqlite.reserved_at raw); [discriminate | reflexivity].
  - split; [assumption|]. intros job Hjob.
    destruct Hres as [H | (e & H)]; rewrite H in Hjob; discriminate.
Qed.

(** ** C5: storing a uuid twice *)

(** C5 as the design document states it fails on the distributed-store driver:
    storing a job that is already stored completes without an error. *)
Lemma C5_second_store_reports_no_error :
  Redis.db_get available_key (Redis.db (one_available true)) <> None
  /\ Redis.run (RedisDriver.storeJob the_job Redis.fresh) (one_available true)
     = (Ok tt, Redis.connected, one_available true).
Proof. vm_compute. split; [discriminate | reflexivity]. Qed.

Lemma sqlite_storeJob_existing_uuid (job : Sqlite.Job) (w : Sqlite.world) :
  Sqlite.has_uuid (Sqlite.uuid job) (Sqlite.jobs w) = true ->
  (exists e, fst (Sqlite3Driver.storeJob job w) = Exn e)
  /\ Sqlite.jobs (snd (Sqlite3Driver.storeJob job w)) = Sqlite.jobs w
  /\ (Sqlite.fail w = Sqlite.no_faults ->
      fst (Sqlite3Driver.storeJob job w) = Exn Sqlite.constraint).
Proof.
  intros Hu.
  destruct (SqliteFacts.storeJob_cases job w) as [[He Hj] | (_ & Hfalse & _)];
    [|congruence].
  repeat split; try assumption.
  clear He Hj. destruct w as [t pend sh n f]. cbn in Hu |- *. intros ->.
  unfold Sqlite3Driver.storeJob, Sqlite.bind, Sqlite3Driver.setSharedConnection,
    Sqlite3Driver.getNewConnection, Sqlite3Driver.run, Sqlite.exec.
  destruct sh; cbn; rewrite Hu; reflexivity.
Qed.

Lemma redis_storeJob_keeps_what_is_stored (job : json) (d : Redis.driver) (w : Redis.world) :
  job <> JNull ->
  fst (fst (Redis.run (RedisDriver.storeJob job d) w)) = Ok tt
  /\ (forall k v, Redis.db_get k (Redis.db w) = Some v ->
        Redis.db_get k (Redis.db (snd (Redis.run (RedisDriver.storeJob job d) w))) = Some v).
Proof.
  intros Hjob. rewrite RedisFacts.run_storeJob by assumption. cbn [fst snd].
  split; [reflexivity|]. intros k v Hk.
  destruct (Redis.db_get (RedisCalls.stored_key job) (Redis.db w)) eqn:Hget;
    [assumption|]. cbn [Redis.db Redis.with_db].
  rewrite RedisFacts.db_get_set_other; [assumption|]. intros Heq. subst k. congruence.
Qed.

(** C5, amended.  For a job whose uuid is already stored, [storeJob] of the
    relational driver fails (with the uniqueness error of the table when no
    statement is made to fail) while [storeJob] of the distributed-store
    driver completes without an error; in both drivers whatever was stored
    stays as it was. *)
Theorem C5_existing_record_survives :
  (forall (job : Sqlite.Job) (w : Sqlite.world),
      Sqlite.has_uuid (Sqlite.uuid job) (Sqlite.jobs w) = true ->
      (exists e, fst (Sqlite3Driver.storeJob job w) = Exn e)
      /\ Sqlite.jobs (snd (Sqlite3Driver.storeJob job w)) = Sqlite.jobs w
      /\ (Sqlite.fail w = Sqlite.no_faults ->
          fst (Sqlite3Driver.storeJob job w) = Exn Sqlite.constraint))
  /\ (forall (job : json) (d : Redis.driver) (w : Redis.world),
         job <> JNull ->
         fst (fst (Redis.run (RedisDriver.storeJob job d) w)) = Ok tt
         /\ (forall k v, Redis.db_get k (Redis.db w) = Some v ->
               Redis.db_get k (Redis.db (snd (Redis.run (RedisDriver.storeJob job d) w)))
               = Some v)).
Proof.
  split.
  - apply sqlite_storeJob_existing_uuid.
  - apply redis_storeJob_keeps_what_is_stored.
Qed.

Lemma C5_witness :
  fst (Sqlite3Driver.storeJob (the_sqlite_job None None)
         (table_of [the_row (Some 200%Z) None] Sqlite.no_faults))
  = Exn Sqlite.constraint
  /\ fst (fst (Redis.run (RedisDriver.storeJob the_job Redis.fresh) (one_available true)))
     = Ok tt.
Proof.
  destruct C5_existing_record_survives as [Hsql Hredis]. split.
  - destruct (Hsql (the_sqlite_job None None)
                (table_of [the_row (Some 200%Z) None] Sqlite.no_faults) eq_refl)
      as (_ & _ & H). exact (H eq_refl).
  - refine (proj1 (Hredis the_job Redis.fresh (one_available true) _)). discriminate.
Defined.

(** ** C6: the outcomes of [handle] *)

(** C6.  For every driver, handler and queue, [handleJob] of the facade hands
    the call to the queue client, which: returns "nothing to do" and leaves the
    handler alone when the fetch yields no job; deletes the job by its uuid and
    returns the result of the handler when the handler returns; marks the job
    as failed by its uuid and throws the error of the handler again when the
    handler throws. *)
Theorem C6_handle_outcomes {S J R H : Type} (driver : Client.Driver S J)
        (jobHandler : json -> H -> result R * H) (queue : option string)
        (s : S) (h : H) :
  let q := match queue with Some q => q | None => "default" end in
  (forall s',
      Client.getJob driver q s = (Ok None, s') ->
      Client.handleJob driver jobHandler queue (s, h) = (Ok Client.NothingToDo, (s', h)))
  /\ (forall j s' r h' s'',
         Client.getJob driver q s = (Ok (Some j), s') ->
         jobHandler (Client.payload_of driver j) h = (Ok r, h') ->
         Client.deleteJob driver (Client.uuid_of driver j) s' = (Ok tt, s'') ->
         Client.handleJob driver jobHandler queue (s, h)
         = (Ok (Client.Handled r), (s'', h')))
  /\ (forall j s' e h' s'',
         Client.getJob driver q s = (Ok (Some j), s') ->
         jobHandler (Client.payload_of driver j) h = (Exn e, h') ->
         Client.markJobAsFailed driver (Client.uuid_of driver j) s' = (Ok tt, s'') ->
         Client.handleJob driver jobHandler queue (s, h) = (Exn e, (s'', h'))).
Proof.
  cbn zeta. unfold Client.handleJob, Client.QueueClient_handleJob, Client.handle_with,
    Client.settle_job. cbn [fst snd].
  repeat split.
  - intros s' ->. reflexivity.
  - intros j s' r h' s'' -> Hh Hd. cbn [fst snd]. rewrite Hh, Hd. reflexivity.
  - intros j s' e h' s'' -> Hh Hm. cbn [fst snd]. rewrite Hh, Hm. reflexivity.
Qed.

Lemma C6_witness :
  Client.handleJob Backends.sqlite3 returns_42 (Some "q") (table_of [] Sqlite.no_faults, 0)
  = (Ok Client.NothingToDo, (table_of [] Sqlite.no_faults, 0))
  /\ Client.handleJob Backends.sqlite3 returns_42 (Some "q")
       (table_of [the_row None None] Sqlite.no_faults, 0)
     = (Ok (Client.Handled 42%Z), (Sqlite.mkWorld [] None true 200 Sqlite.no_faults, 1))
  /\ Client.handleJob Backends.sqlite3 throws_boom (Some "q")
       (table_of [the_row None None] Sqlite.no_faults, 0)
     = (Exn boom,
        (Sqlite.mkWorld [the_row None (Some 200%Z)] None true 200 Sqlite.no_faults, 1)).
Proof.
  split; [|split].
  - apply (proj1 (C6_handle_outcomes Backends.sqlite3 returns_42 (Some "q")
                    (table_of [] Sqlite.no_faults) 0)).
    reflexivity.
  - apply (proj1 (proj2 (C6_handle_outcomes Backends.sqlite3 returns_42 (Some "q")
                           (table_of [the_row None None] Sqlite.no_faults) 0))
             (the_sqlite_job None None)
             (table_of [the_row (Some 200%Z) None] Sqlite.no_faults)).
    + reflexivity.
    + reflexivity.
    + reflexivity.
  - apply (proj2 (proj2 (C6_handle_outcomes Backends.sqlite3 throws_boom (Some "q")
                           (table_of [the_row None None] Sqlite.no_faults) 0))
             (the_sqlite_job None None)
             (table_of [the_row (Some 200%Z) None] Sqlite.no_faults)).
    + reflexivity.
    + reflexivity.
    + reflexivity.
Defined.

(** ** C7: failures inside the reservation transaction *)

(** C7.  The design document wants every failure of a reservation answered by
    a rollback and "no job".  The [catch] block of [#reserveJob] awaits the
    [ROLLBACK] unguarded: when [BEGIN EXCLUSIVE] is refused (another writer
    holds the database) no transaction is active, the [ROLLBACK] fails in its
    turn, and its error reaches the caller of [getJob]. *)
Theorem C7_rollback_error_reaches_the_caller :
  Sqlite3Driver.getJob "q" (table_of [the_row None None] begin_fails)
  = (Exn (Sqlite.sql_error "cannot rollback - no transaction is active"),
     table_of [the_row None None] begin_fails).
Proof. reflexivity. Qed.

(** Once the transaction has begun, and as long as the [ROLLBACK] itself goes
    through, the claim holds: whatever statement fails, the call returns, and
    it returns [null] with the table as it was unless it committed. *)
Lemma reservation_failure_after_begin (q : Sqlite.query) (w : Sqlite.world) :
  Sqlite.pending w = None ->
  Sqlite.f_begin (Sqlite.fail w) = false ->
  Sqlite.f_rollback (Sqlite.fail w) = false ->
  exists r, fst (Sqlite3Driver.reserveJob q w) = Ok r
            /\ (r = None -> Sqlite.jobs (snd (Sqlite3Driver.reserveJob q w)) = Sqlite.jobs w).
Proof.
  destruct w as [t pend sh n [fo fb fs fu fc fr fsh]]. cbn. intros -> -> ->.
  unfold Sqlite3Driver.reserveJob, Sqlite.try_catch, Sqlite.bind, Sqlite3Driver.run,
    Sqlite3Driver.getRow, Sqlite.exec, Sqlite.select, Sqlite3Driver.parseJobResult,
    Sqlite3Driver.getCurrentTimestamp, Sqlite.ret, Sqlite.throw, Sqlite.current,
    Sqlite.write, Sqlite.with_pending, Sqlite.with_jobs.
  cbn.
  destruct fs; cbn; [eexists; split; reflexivity|].
  destruct (find (Sqlite.where_ q) t) as [raw|]; cbn.
  2:{ destruct fc; cbn; eexists; split; reflexivity. }
  destruct (Json.parse (Sqlite.payload raw)) as [p|]; cbn;
    [|eexists; split; reflexivity].
  destruct fu; cbn; [eexists; split; reflexivity|].
  destruct fc; cbn; [eexists; split; reflexivity|].
  eexists; split; [reflexivity | discriminate].
Qed.

(** ** C8: deleting a job *)

(** C8 as the design document states it fails on the distributed-store driver:
    [deleteJob] removes a job that is Available, not Reserved. *)
Lemma C8_available_job_is_deleted :
  Redis.db (one_available true) = [(available_key, Json.stringify the_job)]
  /\ Redis.run (RedisDriver.deleteJob "u1" Redis.connected) (one_available true)
     = (Ok tt, Redis.connected, store_of [] true).
Proof. vm_compute. split; reflexivity. Qed.

Lemma delete_reserved_nothing (u : string) (t : Sqlite.table) :
  (forall r, In r t -> Sqlite.uuid r = u -> Sqlite.reserved_at r = None) ->
  Sqlite.delete_reserved u t = t.
Proof.
  intros H. induction t as [|r t IH]; [reflexivity|].
  assert (IH' : Sqlite.delete_reserved u t = t).
  { apply IH. intros r' Hin. apply H. now right. }
  unfold Sqlite.delete_reserved in *. cbn [filter]. rewrite IH'.
  destruct (Sqlite.reserved_at r) as [z|] eqn:Hr; cbn; [|reflexivity].
  destruct (String.eqb_spec (Sqlite.uuid r) u) as [Hu|Hu]; cbn; [|reflexivity].
  rewrite (H r (or_introl eq_refl) Hu) in Hr. discriminate.
Qed.

Lemma sqlite_deleteJob_frame (u : string) (w : Sqlite.world) :
  let t' := Sqlite.jobs (snd (Sqlite3Driver.deleteJob u w)) in
  (forall r, In r t' -> In r (Sqlite.jobs w))
  /\ (forall r, In r (Sqlite.jobs w) ->
        Sqlite.uuid r <> u \/ Sqlite.reserved_at r = None -> In r t')
  /\ ((forall r, In r (Sqlite.jobs w) -> Sqlite.uuid r = u -> Sqlite.reserved_at r = None) ->
      t' = Sqlite.jobs w).
Proof.
  cbn zeta. destruct (SqliteFacts.deleteJob_cases u w) as [[_ ->] | [_ ->]].
  - repeat split; auto.
  - repeat split.
    + intros r Hin. now apply SqliteFacts.in_delete_reserved in Hin.
    + intros r Hin Hkeep. apply SqliteFacts.in_delete_reserved. split; [assumption|].
      intros [Hr Hu]. destruct Hkeep; contradiction.
    + apply delete_reserved_nothing.
Qed.

Lemma redis_deleteJob_frame (u : string) (w : Redis.world) :
  let found := Redis.first_key ("jobs_*" ++ u) (Redis.db w) in
  let out := Redis.run (RedisDriver.deleteJob u Redis.connected) w in
  (forall k, found = Some k ->
     fst (fst out) = Ok tt /\ Redis.db_get k (Redis.db (snd out)) = None)
  /\ (forall k, found <> Some k ->
        Redis.db_get k (Redis.db (snd out)) = Redis.db_get k (Redis.db w))
  /\ (found = None -> Redis.db (snd out) = Redis.db w).
Proof.
  cbn zeta. rewrite RedisFacts.run_deleteJob.
  destruct (Redis.first_key ("jobs_*" ++ u) (Redis.db w)) as [k0|].
  - cbn [fst snd Redis.db Redis.with_db]. split; [|split].
    + intros k [= <-]. split; [reflexivity | apply RedisFacts.db_get_del_same].
    + intros k Hk. apply RedisFacts.db_get_del_other. congruence.
    + discriminate.
  - destruct (Redis.strict_keys w); cbn [fst snd]; repeat split; try discriminate.
Qed.

(** C8, amended.  In the relational driver [deleteJob] removes a row only when
    it belongs to the uuid and is Reserved: no row appears or changes, every
    other row stays, and when the job is not Reserved the table is unchanged.
    In the distributed-store driver [deleteJob] removes the first key that
    [jobs_*<uuid>] enumerates, whatever its state prefix, and every other key
    keeps its value; when no key matches, nothing changes. *)
Theorem C8_what_deleteJob_removes :
  (forall (u : string) (w : Sqlite.world),
      let t' := Sqlite.jobs (snd (Sqlite3Driver.deleteJob u w)) in
      (forall r, In r t' -> In r (Sqlite.jobs w))
      /\ (forall r, In r (Sqlite.jobs w) ->
            Sqlite.uuid r <> u \/ Sqlite.reserved_at r = None -> In r t')
      /\ ((forall r, In r (Sqlite.jobs w) -> Sqlite.uuid r = u ->
             Sqlite.reserved_at r = None) ->
          t' = Sqlite.jobs w))
  /\ (forall (u : string) (w : Redis.world),
         let found := Redis.first_key ("jobs_*" ++ u) (Redis.db w) in
         let out := Redis.run (RedisDriver.deleteJob u Redis.connected) w in
         (forall k, found = Some k ->
            fst (fst out) = Ok tt /\ Redis.db_get k (Redis.db (snd out)) = None)
         /\ (forall k, found <> Some k ->
               Redis.db_get k (Redis.db (snd out)) = Redis.db_get k (Redis.db w))
         /\ (found = None -> Redis.db (snd out) = Redis.db w)).
Proof.
  split.
  - apply sqlite_deleteJob_frame.
  - apply redis_deleteJob_frame.
Qed.

Lemma C8_witness :
  Sqlite.jobs (snd (Sqlite3Driver.deleteJob "u1"
                      (table_of [the_row None None] Sqlite.no_faults)))
  = [the_row None None]
  /\ Redis.db_get available_key
       (Redis.db (snd (Redis.run (RedisDriver.deleteJob "u1" Redis.connected)
                         (one_available true))))
     = None.
Proof.
  destruct C8_what_deleteJob_removes as [Hsql Hredis]. split.
  - apply (proj2 (proj2 (Hsql "u1" (table_of [the_row None None] Sqlite.no_faults)))).
    intros r [<- | []] _. reflexivity.
  - apply (proj1 (Hredis "u1" (one_available true))). reflexivity.
Defined.

(** ** C9: the payload comes back as it went in *)






(** ** C10: calls on a driver that has not connected *)

(** C10.  On a driver whose connection is still unset, [getFailedJob],
    [deleteJob] and [markJobAsFailed] do not connect: each reads a method of
    the missing connection and throws a [TypeError], leaving the store as it
    was and the connection unset. *)
Theorem C10_unconnected_calls_raise (w : Redis.world) (queue jobUuid : string) :
  Redis.run (RedisDriver.getFailedJob queue Redis.fresh) w
  = (Exn (Redis.no_connection "keys"), Redis.fresh, w)
  /\ Redis.run (RedisDriver.deleteJob jobUuid Redis.fresh) w
     = (Exn (Redis.no_connection "keys"), Redis.fresh, w)
  /\ Redis.run (RedisDriver.markJobAsFailed jobUuid Redis.fresh) w
     = (Exn (Redis.no_connection "keys"), Redis.fresh, w).
Proof. repeat split. Qed.

(** The operations that do connect first leave the driver connected. *)
Lemma connecting_calls_connect (w : Redis.world) (d : Redis.driver) (queue u : string)
      (job : json) :
  snd (fst (Redis.run (RedisDriver.storeJob job d) w)) = Redis.connected
  /\ snd (fst (Redis.run (RedisDriver.getJob queue d) w)) = Redis.connected
  /\ snd (fst (Redis.run (RedisDriver.getJobByUuid u d) w)) = Redis.connected
  /\ snd (fst (Redis.run (RedisDriver.deleteAllJobs d) w)) = Redis.connected.
Proof.
  repeat split.
  - destruct job; try (rewrite RedisFacts.run_storeJob by discriminate; reflexivity).
    unfold RedisDriver.storeJob.
    rewrite RedisFacts.run_bind, RedisFacts.run_setConnection, RedisFacts.run_bind,
      RedisFacts.run_deref. reflexivity.
  - rewrite RedisFacts.run_getJob.
    destruct (RedisCalls.fetch _ w) as [j|e]; [|reflexivity].
    destruct (truthy (Some j)); [|reflexivity]. now rewrite RedisFacts.run_reserveJob.
  - rewrite RedisFacts.run_getJobByUuid.
    destruct (RedisCalls.fetch _ w) as [j|e]; [|reflexivity].
    now rewrite RedisFacts.run_reserveJob.
  - now rewrite RedisFacts.run_deleteAllJobs.
Qed.

(** ** The scenarios of the design document, on both drivers *)

(** A handled job is gone, and the next call finds nothing to do. *)
Example handled_job_is_deleted :
  Client.handleJob Backends.redis returns_42 (Some "q")
    ((Redis.fresh, one_available true), 0)
  = (Ok (Client.Handled 42%Z), ((Redis.connected, store_of [] true), 1))
  /\ Client.handleJob Backends.redis returns_42 (Some "q")
       ((Redis.connected, store_of [] true), 1)
     = (Ok Client.NothingToDo, ((Redis.connected, store_of [] true), 1)).
Proof. vm_compute. split; reflexivity. Qed.

(** A job whose handler throws is kept as failed, the error reaches the
    caller, and [handleFailedJob] finds the job again. *)
Example failed_job_is_retried :
  Client.handleJob Backends.redis throws_boom (Some "q")
    ((Redis.fresh, one_available true), 0)
  = (Exn boom,
     ((Redis.connected,
       store_of [(failed_key,
                  Json.stringify
                    (JObj [("uuid", JStr "u1"); ("queue", JStr "q");
                           ("payload", the_payload); ("created_at", JNum 100);
                           ("reserved_at", JNull); ("failed_at", JNum 200)]))] true), 1))
  /\ Client.handleFailedJob Backends.sqlite3 returns_42 (Some "q")
       (table_of [the_row None (Some 150%Z)] Sqlite.no_faults, 0)
     = (Ok (Client.Handled 42%Z), (Sqlite.mkWorld [] None true 200 Sqlite.no_faults, 1)).
Proof. vm_compute. split; reflexivity. Qed.

(** [deleteJob] of the distributed-store driver finds its key by the end of
    the name: the uuid "1" also names the key of the job "11". *)
Example deleteJob_matches_a_longer_uuid :
  Redis.run (RedisDriver.deleteJob "1" Redis.connected)
    (store_of [("jobs_reserved:q/11", "{}")] true)
  = (Ok tt, Redis.connected, store_of [] true).
Proof. vm_compute. reflexivity. Qed.

End Claims.


(* ================================================================== *)
(** * Further properties of the drivers and of the facade *)
(* ================================================================== *)

(** ** Key patterns *)

Module GlobFacts.
Import Glob KeyNames.

Lemma matches_char (c : ascii) (p s : string) :
  special c = false -> matches Normal (String c p) (String c s) = after p s.
Proof.
  destruct c as [b0 b1 b2 b3 b4 b5 b6 b7].
  destruct b0, b1, b2, b3, b4, b5, b6, b7; try discriminate; intros _; reflexivity.
Qed.

Lemma matches_plain_prefix (a p s : string) :
  plain a = true -> a <> EmptyString ->
  matches Normal (a ++ p) (a ++ s) = after p s.
Proof.
  induction a as [|c a IH]; [congruence|]. cbn [plain]. intros Hp _.
  apply andb_prop in Hp. destruct Hp as [Hc Ha]. apply negb_true_iff in Hc.
  cbn [append]. rewrite matches_char by assumption.
  destruct a as [|c' a']; [reflexivity|].
  cbn [append after]. apply (IH Ha). discriminate.
Qed.

Lemma try_any_suffix (p s : string) :
  (fix try (t : string) : bool :=
     match t with
     | EmptyString => false
     | String _ t' => matches Normal p t || try t'
     end) s = any_suffix p s.
Proof. induction s as [|c s IH]; [reflexivity|]. cbn [any_suffix]. now rewrite <- IH. Qed.

Lemma matches_star (c : ascii) (p s : string) :
  c <> "*"%char -> s <> EmptyString ->
  matches Normal (String "*" (String c p)) s = any_suffix (String c p) s.
Proof.
  intros Hc Hs. destruct s as [|x s]; [congruence|].
  rewrite <- try_any_suffix.
  destruct c as [b0 b1 b2 b3 b4 b5 b6 b7].
  destruct b0, b1, b2, b3, b4, b5, b6, b7; try (now contradiction Hc); reflexivity.
Qed.

Lemma any_suffix_app (p a t : string) :
  matches Normal p t = true -> t <> EmptyString -> any_suffix p (a ++ t) = true.
Proof.
  intros Hm Ht. induction a as [|c a IH]; cbn [append].
  - destruct t; [congruence|]. cbn [any_suffix]. now rewrite Hm.
  - cbn [any_suffix]. rewrite IH. apply orb_true_r.
Qed.

Lemma matches_self (u : string) :
  plain u = true -> u <> EmptyString -> matches Normal u u = true.
Proof.
  intros Hp Hu. pose proof (matches_plain_prefix u EmptyString EmptyString Hp Hu) as H.
  rewrite !JsonFacts.append_empty in H. exact H.
Qed.

Lemma plain_head (u : string) :
  plain u = true -> u <> EmptyString ->
  exists c u', u = String c u' /\ c <> "*"%char.
Proof.
  destruct u as [|c u']; [congruence|]. cbn. intros H _.
  exists c, u'. split; [reflexivity|]. intros ->. discriminate.
Qed.

Lemma plain_app (a b : string) : plain (a ++ b) = plain a && plain b.
Proof. induction a as [|c a IH]; cbn; [reflexivity|]. now rewrite IH, andb_assoc. Qed.

Lemma after_nonempty (p s : string) :
  s <> EmptyString -> after p s = matches Normal p s.
Proof. destruct s; [congruence|reflexivity]. Qed.

(** [pre*u] matches every key that starts with [pre] and ends with [u]. *)
Lemma glob_prefix_star_suffix (pre mid u : string) :
  plain pre = true -> pre <> EmptyString -> plain u = true -> u <> EmptyString ->
  glob (pre ++ "*" ++ u) (pre ++ mid ++ u) = true.
Proof.
  intros Hpre Hne Hu Hune. unfold glob. apply orb_true_iff. right.
  rewrite matches_plain_prefix by assumption.
  destruct (plain_head u Hu Hune) as (c & u' & Heq & Hc).
  assert (Hs : mid ++ u <> EmptyString) by (subst u; destruct mid; discriminate).
  rewrite after_nonempty by assumption.
  pose proof (matches_self u Hu Hune) as Hself. subst u.
  cbn [append]. rewrite matches_star by assumption.
  apply any_suffix_app; [assumption|discriminate].
Qed.

(** [pre*] matches every key that starts with [pre]. *)
Lemma glob_prefix_star (pre rest : string) :
  plain pre = true -> pre <> EmptyString ->
  glob (pre ++ "*") (pre ++ rest) = true.
Proof.
  intros Hpre Hne. unfold glob. apply orb_true_iff. right.
  rewrite matches_plain_prefix by assumption.
  destruct rest; reflexivity.
Qed.

End GlobFacts.

(** ** The relational driver *)

Module SqliteProperties.
Import Sqlite Sqlite3Driver SqliteCalls SqliteFacts SqliteWords.

Lemma fetch_no_faults (q : query) (w : world) :
  fail w = no_faults ->
  fetch q w =
  match find (where_ q) (jobs w) with
  | None => (Ok None, with_pending w None)
  | Some raw =>
      match Json.parse (payload raw) with
      | Some p =>
          (Ok (Some (parsed raw p)),
           with_pending (with_jobs w (set_reserved (now w) (uuid raw) (jobs w))) None)
      | None => (Ok None, with_pending w None)
      end
  end.
Proof.
  destruct w as [t pend sh n f]. cbn. intros ->.
  unfold fetch, bind, getNewConnection, reserveJob, try_catch, bind, run, getRow, exec, select,
    parseJobResult, getCurrentTimestamp, ret, throw, current, write, with_pending, with_jobs.
  cbn.
  destruct (find (where_ q) t) as [raw|]; cbn; [|reflexivity].
  destruct (Json.parse (payload raw)) as [p|]; reflexivity.
Qed.

(** No call of the driver changes the clock or what fails. *)
Lemma fetch_env (q : query) (w : world) :
  fail (snd (fetch q w)) = fail w /\ now (snd (fetch q w)) = now w
  /\ shared (snd (fetch q w)) = shared w.
Proof.
  destruct w as [t pend sh n [fo fb fs fu fc fr fsh]].
  unfold fetch, bind, getNewConnection, reserveJob, try_catch, bind, run, getRow, exec, select,
    parseJobResult, getCurrentTimestamp, ret, throw, current, write, with_pending, with_jobs.
  cbn.
  destruct fo; cbn; [auto|].
  destruct fb; cbn; [destruct fr; cbn; auto|].
  destruct fs; cbn; [destruct fr; cbn; auto|].
  destruct (find (where_ q) t) as [raw|]; cbn.
  2:{ destruct fc; cbn; [destruct fr; cbn|]; auto. }
  destruct (Json.parse (payload raw)) as [p|]; cbn; [|destruct fr; cbn; auto].
  destruct fu; cbn; [destruct fr; cbn; auto|].
  destruct fc; cbn; [destruct fr; cbn; auto|]. auto.
Qed.

Lemma fetch_handed (q : query) (w w' : world) (job : Job) :
  fetch q w = (Ok (Some job), w') ->
  exists raw,
    find (where_ q) (jobs w) = Some raw
    /\ Json.parse (payload raw) = Some (payload job)
    /\ job = parsed raw (payload job)
    /\ jobs w' = set_reserved (now w) (uuid raw) (jobs w).
Proof.
  intros H.
  destruct (fetch_cases q w) as [(raw & p & Hfind & Hp & Hres & Hjobs) | (_ & Hres)];
    change (bind getNewConnection (fun _ => reserveJob q) w) with (fetch q w) in *;
    rewrite H in *; cbn [fst snd] in *.
  - injection Hres as ->. exists raw. cbn. auto.
  - destruct Hres as [Hres | (e & Hres)]; discriminate.
Qed.







(** ** A row that cannot be parsed *)



(** ** Storing, then fetching *)







(** ** Marking a job as failed *)

Lemma shared_ok (w : world) :
  f_open (fail w) = false ->
  exists w', setSharedConnection w = (Ok tt, w') /\ jobs w' = jobs w
             /\ now w' = now w /\ fail w' = fail w.
Proof.
  intros Ho. unfold setSharedConnection, getNewConnection. rewrite Ho.
  destruct (shared w); eauto.
Qed.

Lemma markJobAsFailed_ok (u : string) (w : world) :
  f_open (fail w) = false -> f_shared (fail w) = false ->
  exists w', markJobAsFailed u w = (Ok tt, w') /\ jobs w' = set_failed (now w) u (jobs w)
             /\ now w' = now w /\ fail w' = fail w.
Proof.
  intros Ho Hs. unfold markJobAsFailed, bind, getCurrentTimestamp.
  destruct (shared_ok w Ho) as (w' & -> & Hj & Hn & Hf).
  unfold run, exec. rewrite Hf, Hs, Hj. eexists. split; [reflexivity|]. cbn. auto.
Qed.


Lemma set_failed_other (ts : Z) (u : string) (t : table) (r : row) :
  In r t -> uuid r <> u -> In r (set_failed ts u t).
Proof.
  intros Hin Hu. unfold set_failed. apply in_map_iff. exists r. split; [|assumption].
  apply String.eqb_neq in Hu. now rewrite Hu.
Qed.

Lemma set_failed_absent (ts : Z) (u : string) (t : table) :
  has_uuid u t = false -> set_failed ts u t = t.
Proof.
  induction t as [|r t IH]; [reflexivity|]. intros H. cbn in H.
  apply orb_false_iff in H. destruct H as [Hr Ht].
  unfold set_failed in *. cbn [map]. rewrite Hr, (IH Ht). reflexivity.
Qed.

(** X7.  [markJobAsFailed] asks for no reservation: every row with the uuid, be
    it available, reserved or failed already, ends failed at the time of the
    call with [reserved_at] null; the other rows stay; and a uuid the table
    does not hold changes nothing and raises nothing. *)
Theorem sqlite_markJobAsFailed_takes_a_job_in_any_state (u : string) (w : world) :
  f_open (fail w) = false ->
  f_shared (fail w) = false ->
  let out := markJobAsFailed u w in
  fst out = Ok tt
  /\ (forall r, In r (jobs w) -> uuid r = u -> In (failed_row (now w) r) (jobs (snd out)))
  /\ (forall r, In r (jobs w) -> uuid r <> u -> In r (jobs (snd out)))
  /\ length (jobs (snd out)) = length (jobs w)
  /\ (has_uuid u (jobs w) = false -> jobs (snd out) = jobs w).
Proof.
  intros Ho Hs. cbn zeta.
  destruct (markJobAsFailed_ok u w Ho Hs) as (w' & -> & Hj & _). cbn [fst snd]. rewrite Hj.
  split; [reflexivity|]. split; [|split; [|split]].
  - intros r Hin Hu. unfold set_failed. apply in_map_iff. exists r. split; [|assumption].
    apply String.eqb_eq in Hu. now rewrite Hu.
  - intros r Hin Hu. now apply set_failed_other.
  - unfold set_failed. apply length_map.
  - apply set_failed_absent.
Qed.

Lemma sqlite_markJobAsFailed_takes_a_job_in_any_state_witness :
  In (Scenario.the_row None (Some 200%Z))
     (jobs (snd (markJobAsFailed "u1" (Scenario.table_of [Scenario.the_row None None]
                                                         no_faults)))).
Proof.
  apply (proj1 (proj2 (sqlite_markJobAsFailed_takes_a_job_in_any_state "u1"
                         (Scenario.table_of [Scenario.the_row None None] no_faults)
                         eq_refl eq_refl))
           (Scenario.the_row None None)); [left|]; reflexivity.
Defined.

(** ** Fetching, then deleting *)







(** ** Failing, then retrying *)

Lemma set_failed_after_reservation (ts ts' : Z) (u : string) (t : table) :
  set_failed ts u (set_reserved ts' u t) = set_failed ts u t.
Proof.
  unfold set_failed, set_reserved. rewrite map_map. apply map_ext. intros r.
  destruct (String.eqb (uuid r) u) eqn:E; cbn; rewrite E; reflexivity.
Qed.

Lemma find_map_only {A : Type} (P : A -> bool) (f : A -> A) (x : A) (l : list A) :
  In x l -> P (f x) = true ->
  (forall y, In y l -> P (f y) = true -> y = x) ->
  find P (map f l) = Some (f x).
Proof.
  induction l as [|y l IH]; [contradiction|]. intros Hin Hx Honly. cbn.
  destruct (P (f y)) eqn:Hy.
  - rewrite (Honly y (or_introl eq_refl) Hy). reflexivity.
  - destruct Hin as [-> | Hin]; [congruence|].
    apply IH; auto. intros z Hz. apply Honly. now right.
Qed.

Lemma same_uuid_same_row (t : table) (r r' : row) :
  NoDup (map uuid t) -> In r t -> In r' t -> uuid r = uuid r' -> r = r'.
Proof.
  induction t as [|x t IH]; [contradiction|]. cbn. intros Hnd Hr Hr' Hu.
  apply NoDup_cons_iff in Hnd. destruct Hnd as [Hx Hnd].
  destruct Hr as [-> | Hr], Hr' as [-> | Hr']; auto.
  - exfalso. apply Hx. rewrite Hu. now apply in_map.
  - exfalso. apply Hx. rewrite <- Hu. now apply in_map.
Qed.

(** X5.  The retry loop.  When uuids are unique and the queue holds no failed job
    that can be selected, the job [getJob] hands out, once marked as failed,
    is the job the next [getFailedJob] of the queue hands out: the same
    uuid, queue, payload and creation time, now with [failed_at] set. *)
Theorem sqlite_failed_job_is_handed_out_again (queue : string) (w w1 : world) (job : Job) :
  fail w = no_faults ->
  NoDup (map uuid (jobs w)) ->
  find (where_ (SelectFailed queue)) (jobs w) = None ->
  getJob queue w = (Ok (Some job), w1) ->
  fst (getFailedJob queue (snd (markJobAsFailed (uuid job) w1)))
  = Ok (Some (mkJob (uuid job) (Sqlite.queue job) (payload job) (created_at job)
                    None (Some (now w)))).
Proof.
  intros Hf Hnd Hnone Hget.
  change (getJob queue w) with (fetch (SelectAvailable queue) w) in Hget.
  destruct (fetch_handed _ w w1 job Hget) as (raw & Hfind & Hp & Hjob & Hjobs).
  destruct (fetch_env (SelectAvailable queue) w) as (Hf1 & Hn1 & _).
  rewrite Hget in Hf1, Hn1. cbn [snd] in Hf1, Hn1.
  destruct (markJobAsFailed_ok (uuid job) w1) as (w2 & -> & Hj2 & Hn2 & Hf2);
    [rewrite Hf1, Hf; reflexivity | rewrite Hf1, Hf; reflexivity |].
  cbn [snd]. change (getFailedJob queue w2) with (fetch (SelectFailed queue) w2).
  rewrite fetch_no_faults by congruence.
  assert (Hu : uuid raw = uuid job) by (rewrite Hjob; reflexivity).
  apply find_some in Hfind. destruct Hfind as [Hin Hwhere].
  cbn in Hwhere. apply andb_prop in Hwhere. destruct Hwhere as [Hwhere _].
  apply andb_prop in Hwhere. destruct Hwhere as [Hq _].
  rewrite Hj2, Hjobs, Hu, set_failed_after_reservation. unfold set_failed.
  rewrite (find_map_only _ _ raw).
  - assert (Hq' : Sqlite.queue job = Sqlite.queue raw) by (rewrite Hjob; reflexivity).
    assert (Hc : created_at job = created_at raw) by (rewrite Hjob; reflexivity).
    rewrite Hu, String.eqb_refl. cbn [payload]. rewrite Hp. cbn [fst].
    unfold parsed. cbn. rewrite Hq', Hc, Hn1. reflexivity.
  - exact Hin.
  - rewrite Hu, String.eqb_refl. cbn. now rewrite Hq.
  - intros y Hy Hsel. destruct (String.eqb (uuid y) (uuid job)) eqn:E.
    + apply String.eqb_eq in E. apply (same_uuid_same_row (jobs w)); auto. congruence.
    + pose proof (find_none _ _ Hnone y Hy) as Hno. congruence.
Qed.

Lemma sqlite_failed_job_is_handed_out_again_witness :
  fst (getFailedJob "q"
         (snd (markJobAsFailed "u1"
                 (mkWorld [Scenario.the_row (Some 200%Z) None] None false 200 no_faults))))
  = Ok (Some (Scenario.the_sqlite_job None (Some 200%Z))).
Proof.
  apply (sqlite_failed_job_is_handed_out_again "q"
           (Scenario.table_of [Scenario.the_row None None] no_faults)
           (mkWorld [Scenario.the_row (Some 200%Z) None] None false 200 no_faults)
           (Scenario.the_sqlite_job None None)); try reflexivity.
  repeat constructor. intros [].
Defined.


(** ** Failures *)

Lemma fetch_swallows (q : query) (w : world) :
  f_open (fail w) = false -> f_begin (fail w) = false -> f_rollback (fail w) = false ->
  (exists r, fst (fetch q w) = Ok r)
  /\ (f_select (fail w) || f_update (fail w) || f_commit (fail w) = true ->
      fst (fetch q w) = Ok None /\ jobs (snd (fetch q w)) = jobs w).
Proof.
  destruct w as [t pend sh n [fo fb fs fu fc fr fsh]]. cbn. intros -> -> ->.
  unfold fetch, bind, getNewConnection, reserveJob, try_catch, bind, run, getRow, exec, select,
    parseJobResult, getCurrentTimestamp, ret, throw, current, write, with_pending, with_jobs.
  cbn.
  destruct fs; cbn; [split; eauto|].
  destruct (find (where_ q) t) as [raw|]; cbn.
  2:{ destruct fc; cbn; [|destruct fu]; split; eauto; discriminate. }
  destruct (Json.parse (payload raw)) as [p|]; cbn; [|split; eauto].
  destruct fu; cbn; [split; eauto|].
  destruct fc; cbn; split; eauto; discriminate.
Qed.

(** X9.  When the connection opens and [BEGIN] and [ROLLBACK] work, a fetch never
    throws; and when [SELECT], the [UPDATE] or [COMMIT] fails, it reports
    that there is no job and the table is as it was. *)
Theorem sqlite_failure_inside_the_transaction_reads_as_no_job (m : M (option Job))
        (queue jobUuid : string) (w : world) :
  In m [getJob queue; getJobByUuid jobUuid; getFailedJob queue] ->
  f_open (fail w) = false ->
  f_begin (fail w) = false ->
  f_rollback (fail w) = false ->
  (exists r, fst (m w) = Ok r)
  /\ (f_select (fail w) || f_update (fail w) || f_commit (fail w) = true ->
      fst (m w) = Ok None /\ jobs (snd (m w)) = jobs w).
Proof.
  intros Hm. assert (Hq : exists q, m = fetch q).
  { destruct Hm as [<- | [<- | [<- | []]]]; eexists; reflexivity. }
  destruct Hq as (q & ->). apply fetch_swallows.
Qed.

Lemma sqlite_failure_inside_the_transaction_reads_as_no_job_witness :
  fst (getJob "q" (Scenario.table_of [Scenario.the_row None None]
                     (mkFaults false false false false true false false)))
  = Ok None.
Proof.
  apply (sqlite_failure_inside_the_transaction_reads_as_no_job (getJob "q") "q" "u1"
           (Scenario.table_of [Scenario.the_row None None]
              (mkFaults false false false false true false false)));
    [left| | | |]; reflexivity.
Defined.

(** X10.  A connection that cannot be opened is the caller's error: the fetches
    open one per call, outside their [try], and throw; the other calls throw
    as long as the shared connection has not been opened, and once it has
    been they no longer open one.  Nothing is written by a call that
    throws. *)
Theorem sqlite_connection_failure_reaches_the_caller (queue jobUuid : string) (job : Job)
        (w : world) :
  f_open (fail w) = true ->
  getJob queue w = (Exn cannot_open, w)
  /\ getJobByUuid jobUuid w = (Exn cannot_open, w)
  /\ getFailedJob queue w = (Exn cannot_open, w)
  /\ (shared w = false ->
      createJobsDbStructure w = (Exn cannot_open, w)
      /\ storeJob job w = (Exn cannot_open, w)
      /\ deleteJob jobUuid w = (Exn cannot_open, w)
      /\ markJobAsFailed jobUuid w = (Exn cannot_open, w))
  /\ (shared w = true -> f_shared (fail w) = false ->
      createJobsDbStructure w = (Ok tt, w)
      /\ deleteJob jobUuid w = (Ok tt, with_jobs w (delete_reserved jobUuid (jobs w)))
      /\ markJobAsFailed jobUuid w
         = (Ok tt, with_jobs w (set_failed (now w) jobUuid (jobs w)))).
Proof.
  intros Ho.
  unfold getJob, getJobByUuid, getFailedJob, createJobsDbStructure, storeJob, deleteJob,
    markJobAsFailed, bind, getCurrentTimestamp, setSharedConnection, getNewConnection,
    run, exec.
  rewrite Ho. split; [reflexivity|]. split; [reflexivity|]. split; [reflexivity|].
  split.
  - intros ->. repeat split.
  - intros -> ->. repeat split.
Qed.

Lemma sqlite_connection_failure_reaches_the_caller_witness :
  getJob "q" (Scenario.table_of [Scenario.the_row None None]
                (mkFaults true false false false false false false))
  = (Exn cannot_open,
     Scenario.table_of [Scenario.the_row None None]
       (mkFaults true false false false false false false)).
Proof.
  apply (sqlite_connection_failure_reaches_the_caller "q" "u1"
           (Scenario.the_sqlite_job None None)
           (Scenario.table_of [Scenario.the_row None None]
              (mkFaults true false false false false false false))).
  reflexivity.
Defined.

(** ** A job is handed out once *)







End SqliteProperties.

(** ** The distributed-store driver *)

Module RedisProperties.
Import Redis RedisDriver RedisCalls RedisOps RedisFacts RedisWords.

Lemma filter_absent (x : string) (l : list string) :
  mem x l = false -> filter (fun r => negb (String.eqb r x)) l = l.
Proof.
  induction l as [|y l IH]; [reflexivity|]. cbn. intros H.
  apply orb_false_iff in H. destruct H as [Hy Hl].
  rewrite String.eqb_sym, Hy. cbn. now rewrite (IH Hl).
Qed.

Lemma released_free (lock : string) (w : world) :
  mem lock (held w) = false -> released lock w = held w.
Proof.
  intros H. unfold released. cbn [filter]. rewrite String.eqb_refl. cbn [negb].
  now apply filter_absent.
Qed.

Lemma with_held_same (w : world) : with_held w (held w) = w.
Proof. now destruct w. Qed.

(** [#markJob] with the lock free, as one step. *)
Lemma moved_free (job : json) (mark st : string) (w : world) :
  mem (lock_name job) (held w) = false ->
  moved job mark st w =
  match first_key (source_pattern st job) (db w) with
  | Some k =>
      (Ok tt, with_db w (db_set (state_key mark job) (Json.stringify job) (db_del k (db w))))
  | None =>
      if strict_keys w then (Exn (Error "Failed to reserve job"), w)
      else (Ok tt, with_db w (db_set (state_key mark job) (Json.stringify job) (db w)))
  end.
Proof.
  intros H. unfold moved. rewrite H, (released_free _ _ H), with_held_same. reflexivity.
Qed.



(** ** The locks *)




Ltac named_field :=
  first [ discriminate | cbn; split; [reflexivity | discriminate] ].

Lemma lock_name_reserved_copy (job : json) (ts : Z) :
  lock_name (reserved_copy job ts) = lock_name job.
Proof.
  unfold lock_name. now rewrite !get_field_reserved_copy by named_field.
Qed.

Lemma lock_name_failed_copy (job : json) (ts : Z) :
  lock_name (failed_copy job ts) = lock_name job.
Proof.
  unfold lock_name. now rewrite !get_field_failed_copy by named_field.
Qed.

Lemma source_pattern_reserved_copy (st : string) (job : json) (ts : Z) :
  source_pattern st (reserved_copy job ts) = source_pattern st job.
Proof.
  unfold source_pattern. now rewrite get_field_reserved_copy by named_field.
Qed.

Lemma source_pattern_failed_copy (st : string) (job : json) (ts : Z) :
  source_pattern st (failed_copy job ts) = source_pattern st job.
Proof.
  unfold source_pattern. now rewrite get_field_failed_copy by named_field.
Qed.

Lemma state_key_reserved_copy (st : string) (job : json) (ts : Z) :
  state_key st (reserved_copy job ts) = state_key st job.
Proof.
  unfold state_key. now rewrite !get_field_reserved_copy by named_field.
Qed.

Lemma state_key_failed_copy (st : string) (job : json) (ts : Z) :
  state_key st (failed_copy job ts) = state_key st job.
Proof.
  unfold state_key. now rewrite !get_field_failed_copy by named_field.
Qed.

(** ** A queue with nothing to hand out *)



(** ** A lock that is held *)

(** X12.  When the lock of the job is held by somebody else, [getJob] returns
    [null] (the refusal is caught in [#reserveJob]) and [markJobAsFailed]
    throws 'Failed to get a lock' (nothing catches it); neither writes or
    deletes a key. *)
Theorem redis_held_lock_refuses_the_move (queue jobUuid : string) (d : driver) (w : world)
        (job : json) :
  mem (lock_name job) (held w) = true ->
  (fetch ("jobs_available:" ++ queue ++ "/*") w = Ok job ->
   run (getJob queue d) w = (Ok JNull, connected, w))
  /\ (fetch ("jobs_reserved:*" ++ jobUuid) w = Ok job ->
      run (markJobAsFailed jobUuid connected) w
      = (Exn (Error "Failed to get a lock"), connected, w)).
Proof.
  intros Hheld. split; intros Hfetch.
  - rewrite run_getJob, Hfetch. destruct (truthy (Some job)); [|reflexivity].
    rewrite run_reserveJob. unfold moved. rewrite lock_name_reserved_copy, Hheld. reflexivity.
  - rewrite run_markJobAsFailed, Hfetch, run_failJob. unfold moved.
    rewrite lock_name_failed_copy, Hheld. reflexivity.
Qed.

Lemma redis_held_lock_refuses_the_move_witness :
  run (getJob "q" fresh)
      (mkWorld [(Scenario.available_key, Json.stringify Scenario.the_job)]
               ["jobs:locks:q/u1"] 200 true)
  = (Ok JNull, connected,
     mkWorld [(Scenario.available_key, Json.stringify Scenario.the_job)]
             ["jobs:locks:q/u1"] 200 true).
Proof.
  apply (proj1 (redis_held_lock_refuses_the_move "q" "u1" fresh
                  (mkWorld [(Scenario.available_key, Json.stringify Scenario.the_job)]
                           ["jobs:locks:q/u1"] 200 true)
                  Scenario.the_job eq_refl)).
  reflexivity.
Defined.


(** ** What [getJob] hands out *)



Lemma failed_copy_fields (job : json) (ts : Z) :
  get_field "failed_at" (failed_copy job ts) = Some (JNum ts)
  /\ get_field "reserved_at" (failed_copy job ts) = Some JNull.
Proof.
  unfold failed_copy. cbn [get_field]. split.
  - rewrite lookup_assign_other by discriminate. apply lookup_assign_same.
  - apply lookup_assign_same.
Qed.




(** ** Marking a job as failed *)

(** X17.  [markJobAsFailed] on a reserved job whose lock is free: the key that
    [jobs_reserved:*<uuid>] lists first is deleted, and the failed key of the
    job holds the job with [failed_at] set to the time of the call and
    [reserved_at] to [null]. *)
Theorem redis_markJobAsFailed_moves_the_job (jobUuid : string) (w : world) (job : json)
        (k : string) :
  fetch ("jobs_reserved:*" ++ jobUuid) w = Ok job ->
  mem (lock_name job) (held w) = false ->
  first_key (source_pattern "reserved" job) (db w) = Some k ->
  let failed := failed_copy job (now w) in
  run (markJobAsFailed jobUuid connected) w
  = (Ok tt, connected,
     with_db w (db_set (state_key "failed" job) (Json.stringify failed) (db_del k (db w))))
  /\ get_field "failed_at" failed = Some (JNum (now w))
  /\ get_field "reserved_at" failed = Some JNull
  /\ (forall p, starts_with_letter p -> p <> "reserved_at" -> p <> "failed_at" ->
        get_field p failed = get_field p job).
Proof.
  intros Hfetch Hfree Hk. cbn zeta.
  destruct (failed_copy_fields job (now w)) as [H1 H2].
  split; [|split; [exact H1 | split; [exact H2|]]].
  - rewrite run_markJobAsFailed, Hfetch, run_failJob.
    rewrite moved_free by (now rewrite lock_name_failed_copy).
    rewrite source_pattern_failed_copy, Hk, state_key_failed_copy. reflexivity.
  - intros p Hp Hr Hf. now apply get_field_failed_copy.
Qed.

Lemma redis_markJobAsFailed_moves_the_job_witness :
  run (markJobAsFailed "u1" connected)
      (Scenario.store_of [(Scenario.reserved_key, Json.stringify Scenario.the_reserved_job)]
                         true)
  = (Ok tt, connected,
     Scenario.store_of
       [(Scenario.failed_key,
         Json.stringify (failed_copy Scenario.the_reserved_job 200))] true).
Proof.
  apply (redis_markJobAsFailed_moves_the_job "u1"
           (Scenario.store_of [(Scenario.reserved_key,
                                Json.stringify Scenario.the_reserved_job)] true)
           Scenario.the_reserved_job Scenario.reserved_key); reflexivity.
Defined.

Lemma fetch_nothing (pattern : string) (w : world) :
  first_key pattern (db w) = None -> fetch pattern w = Ok JNull.
Proof. unfold fetch. now intros ->. Qed.

(** X18.  [markJobAsFailed] and [getFailedJob] when the lookup finds no key.  Both
    go on with [null] for the job, so the lock, the key and the pattern are
    those of a job without queue and uuid.  A client that rejects [del(null)]
    stops them there: [markJobAsFailed] throws 'Failed to reserve job' and
    [getFailedJob] returns [null], the store untouched.  With a client that
    lets [del(null)] pass, each writes a key for a job that does not exist,
    and [getFailedJob] returns that object. *)
Theorem redis_calls_go_on_with_no_job_found (queue jobUuid : string) (w : world) :
  mem nameless_lock (held w) = false ->
  (first_key ("jobs_reserved:*" ++ jobUuid) (db w) = None ->
   first_key (nameless_pattern "reserved") (db w) = None ->
   run (markJobAsFailed jobUuid connected) w
   = if strict_keys w
     then (Exn (Error "Failed to reserve job"), connected, w)
     else (Ok tt, connected,
           with_db w (db_set (nameless_key "failed")
                             (Json.stringify (failed_copy JNull (now w))) (db w))))
  /\ (first_key ("jobs_failed:" ++ queue ++ "/*") (db w) = None ->
      first_key (nameless_pattern "available") (db w) = None ->
      run (getFailedJob queue connected) w
      = if strict_keys w
        then (Ok JNull, connected, w)
        else (Ok (reserved_copy JNull (now w)), connected,
              with_db w (db_set (nameless_key "reserved")
                                (Json.stringify (reserved_copy JNull (now w))) (db w)))).
Proof.
  intros Hfree. split; intros Hnone Hsrc.
  - rewrite run_markJobAsFailed, (fetch_nothing _ _ Hnone), run_failJob.
    rewrite moved_free by exact Hfree.
    change (source_pattern "reserved" (failed_copy JNull (now w)))
      with (nameless_pattern "reserved").
    rewrite Hsrc. now destruct (strict_keys w).
  - rewrite run_getFailedJob, (fetch_nothing _ _ Hnone), run_reserveJob.
    rewrite moved_free by exact Hfree.
    change (source_pattern (current_state JNull) (reserved_copy JNull (now w)))
      with (nameless_pattern "available").
    rewrite Hsrc. now destruct (strict_keys w).
Qed.

Lemma redis_calls_go_on_with_no_job_found_witness :
  run (getFailedJob "q" connected) (Scenario.one_available false)
  = (Ok (JObj [("reserved_at", JNum 200); ("failed_at", JNull)]), connected,
     Scenario.store_of
       [(Scenario.available_key, Json.stringify Scenario.the_job);
        ("jobs_reserved:undefined/undefined",
         Json.stringify (JObj [("reserved_at", JNum 200); ("failed_at", JNull)]))] false).
Proof.
  apply (proj2 (redis_calls_go_on_with_no_job_found "q" "u1" (Scenario.one_available false)
                  eq_refl)); reflexivity.
Defined.


(** ** What a move leaves alone *)

Lemma moved_frame (job : json) (mark st : string) (w : world) (k : string) :
  k <> state_key mark job ->
  first_key (source_pattern st job) (db w) <> Some k ->
  db_get k (db (snd (moved job mark st w))) = db_get k (db w).
Proof.
  intros Hdst Hsrc. unfold moved.
  destruct (mem (lock_name job) (held w)); [reflexivity|].
  destruct (first_key (source_pattern st job) (db w)) as [k'|].
  - cbn [snd db with_db]. rewrite db_get_set_other by exact Hdst.
    apply db_get_del_other. congruence.
  - destruct (strict_keys w); [reflexivity|].
    cbn [snd db with_db]. now apply db_get_set_other.
Qed.

(** X22.  A move changes at most two keys, whether it succeeds or fails: the key
    that the pattern of the uuid lists first, which it deletes, and the key
    of the new state, which it writes.  Every other key holds what it held,
    in [#markJob] and in the two calls built on it. *)
Theorem redis_move_leaves_the_other_keys (job : json) (mark st : string) (w : world)
        (k : string) :
  k <> state_key mark job ->
  (first_key (source_pattern st job) (db w) <> Some k ->
   db_get k (db (snd (run (markJob job mark st connected) w))) = db_get k (db w))
  /\ (mark = "reserved" ->
      first_key (source_pattern (current_state job) job) (db w) <> Some k ->
      db_get k (db (snd (run (reserveJob job connected) w))) = db_get k (db w))
  /\ (mark = "failed" ->
      first_key (source_pattern "reserved" job) (db w) <> Some k ->
      db_get k (db (snd (run (failJob job connected) w))) = db_get k (db w)).
Proof.
  intros Hdst. split; [|split].
  - intros Hsrc. rewrite run_markJob. now apply moved_frame.
  - intros -> Hsrc. rewrite run_reserveJob. cbn [snd].
    apply moved_frame.
    + now rewrite state_key_reserved_copy.
    + now rewrite source_pattern_reserved_copy.
  - intros -> Hsrc. rewrite run_failJob. cbn [snd].
    apply moved_frame.
    + now rewrite state_key_failed_copy.
    + now rewrite source_pattern_failed_copy.
Qed.

Lemma redis_move_leaves_the_other_keys_witness :
  db_get "jobs_available:p/u2"
    (db (snd (run (reserveJob Scenario.the_job connected)
                (Scenario.store_of [("jobs_available:p/u2", "{}");
                                    (Scenario.available_key,
                                     Json.stringify Scenario.the_job)] true))))
  = Some "{}".
Proof.
  apply (proj1 (proj2 (redis_move_leaves_the_other_keys Scenario.the_job "reserved"
                         "available"
                         (Scenario.store_of [("jobs_available:p/u2", "{}");
                                             (Scenario.available_key,
                                              Json.stringify Scenario.the_job)] true)
                         "jobs_available:p/u2" ltac:(discriminate)))
           eq_refl).
  discriminate.
Defined.

(** ** Deleting everything *)




(** ** Text that is not JSON *)




(** ** The connection *)

(** X21.  [createJobsDbStructure] does nothing, and in particular does not
    connect: a driver is as fresh after it as before, and [closeConnection]
    on a fresh driver throws the [TypeError] of reading [quit] from an unset
    connection.  On a connected driver [closeConnection] returns, and the
    driver keeps its connection field. *)
Theorem redis_closeConnection_needs_a_connection (d : driver) (w : world) :
  run (createJobsDbStructure d) w = (Ok tt, d, w)
  /\ run (closeConnection fresh) w = (Exn (no_connection "quit"), fresh, w)
  /\ run (closeConnection connected) w = (Ok tt, connected, w)
  /\ run (bind createJobsDbStructure (fun _ => closeConnection) fresh) w
     = (Exn (no_connection "quit"), fresh, w).
Proof. repeat split. Qed.

End RedisProperties.

(** ** The distributed-store driver: a job from one call to the next *)

Module RedisJourneys.
Import Redis RedisDriver RedisCalls RedisOps RedisFacts RedisWords RedisProperties KeyNames GlobFacts.

Lemma glob_queue_pattern (pre q rest : string) :
  plain pre = true -> pre <> EmptyString -> plain q = true ->
  Glob.glob (pre ++ q ++ "/*") (pre ++ q ++ "/" ++ rest) = true.
Proof.
  intros Hpre Hne Hq.
  replace (pre ++ q ++ "/*") with ((pre ++ q ++ "/") ++ "*")
    by now rewrite !JsonFacts.append_assoc.
  replace (pre ++ q ++ "/" ++ rest) with ((pre ++ q ++ "/") ++ rest)
    by now rewrite !JsonFacts.append_assoc.
  apply glob_prefix_star.
  - rewrite !plain_app, Hpre, Hq. reflexivity.
  - destruct pre; [congruence | discriminate].
Qed.

Lemma db_keys_app (pattern : string) (d d' : list (string * string)) :
  db_keys pattern (d ++ d')%list = (db_keys pattern d ++ db_keys pattern d')%list.
Proof. unfold db_keys. now rewrite filter_app, map_app. Qed.

Lemma db_keys_none (pattern k : string) (d : list (string * string)) :
  db_keys pattern d = [] -> Glob.glob pattern k = true -> db_get k d = None.
Proof.
  unfold db_keys. induction d as [|[k' v] d IH]; [reflexivity|]. cbn [filter fst db_get].
  destruct (Glob.glob pattern k') eqn:Hg; [discriminate|]. intros Hd Hk.
  destruct (String.eqb k k') eqn:E; [|now apply IH].
  apply String.eqb_eq in E. congruence.
Qed.

Lemma db_set_absent (k v : string) (d : list (string * string)) :
  db_get k d = None -> db_set k v d = (d ++ [(k, v)])%list.
Proof.
  induction d as [|[k' v'] d IH]; [reflexivity|]. cbn [db_get db_set app].
  destruct (String.eqb k k'); [discriminate|]. intros H. now rewrite IH.
Qed.

Lemma db_del_absent (k : string) (d : list (string * string)) :
  db_get k d = None -> db_del k d = d.
Proof.
  unfold db_del. induction d as [|[k' v'] d IH]; [reflexivity|]. cbn [db_get filter fst].
  destruct (String.eqb k k'); [discriminate|]. intros H. cbn [negb]. now rewrite IH.
Qed.

Lemma db_del_last (k v : string) (d : list (string * string)) :
  db_get k d = None -> db_del k (d ++ [(k, v)])%list = d.
Proof.
  intros H. unfold db_del. rewrite filter_app. fold (db_del k d). rewrite (db_del_absent _ _ H).
  cbn. rewrite String.eqb_refl. cbn. apply app_nil_r.
Qed.

Lemma first_key_last (pattern k v : string) (d : list (string * string)) :
  db_keys pattern d = [] -> Glob.glob pattern k = true -> k <> EmptyString ->
  first_key pattern (d ++ [(k, v)])%list = Some k.
Proof.
  intros Hd Hg Hk. unfold first_key. rewrite db_keys_app, Hd. unfold db_keys. cbn.
  rewrite Hg. cbn. apply String.eqb_neq in Hk. now rewrite Hk.
Qed.

Lemma with_db_twice (w : world) (d d' : list (string * string)) :
  with_db (with_db w d) d' = with_db w d'.
Proof. reflexivity. Qed.

Lemma stringify_nonempty (v : json) : String.eqb (Json.stringify v) EmptyString = false.
Proof. destruct (JsonFacts.stringify_head v) as (c & t & -> & _). reflexivity. Qed.

Lemma fetch_last (pattern k : string) (job : json) (w : world) :
  db_keys pattern (db w) = [] -> Glob.glob pattern k = true -> k <> EmptyString ->
  fetch pattern (with_db w (db w ++ [(k, Json.stringify job)])%list) = Ok job.
Proof.
  intros Hd Hg Hk. unfold fetch. cbn [db with_db].
  rewrite (first_key_last _ _ _ _ Hd Hg Hk).
  rewrite <- (db_set_absent k _ (db w)) by (now apply (db_keys_none pattern)).
  rewrite db_get_set_same. unfold decode.
  now rewrite stringify_nonempty, JsonFacts.parse_stringify.
Qed.


Lemma names_of (q u : string) (job : json) :
  get_field "queue" job = Some (JStr q) -> get_field "uuid" job = Some (JStr u) ->
  stored_key job = "jobs_available:" ++ q ++ "/" ++ u
  /\ lock_name job = "jobs:locks:" ++ q ++ "/" ++ u
  /\ (forall st, state_key st job = "jobs_" ++ st ++ ":" ++ q ++ "/" ++ u)
  /\ (forall st, source_pattern st job = "jobs_" ++ st ++ ":*" ++ u).
Proof.
  intros Hq Hu. unfold stored_key, lock_name, state_key, source_pattern.
  rewrite Hq, Hu. repeat split.
Qed.

Lemma glob_uuid_pattern (pre q u : string) :
  plain pre = true -> pre <> EmptyString -> plain u = true -> u <> EmptyString ->
  Glob.glob (pre ++ "*" ++ u) (pre ++ q ++ "/" ++ u) = true.
Proof.
  intros Hpre Hne Hu Hune.
  replace (pre ++ q ++ "/" ++ u) with (pre ++ (q ++ "/") ++ u)
    by now rewrite !JsonFacts.append_assoc.
  now apply glob_prefix_star_suffix.
Qed.

(** X15.  Storing, then fetching.  A job object with a queue and a uuid free of
    pattern characters is stored while its lock is free and no available
    key ends with its uuid.  If its queue holds no available job, the next
    [getJob] of the queue returns it; if no available job has its uuid, the
    next [getJobByUuid] returns it.  What is returned is the object with
    [reserved_at] set to the time of the call and [failed_at] to [null];
    the available key is gone again and the reserved key holds the object
    returned. *)
Theorem redis_stored_job_is_handed_out (q u : string) (job : json) (d : driver)
        (w : world) :
  get_field "queue" job = Some (JStr q) ->
  get_field "uuid" job = Some (JStr u) ->
  truthy (get_field "failed_at" job) = false ->
  plain q = true ->
  plain u = true ->
  u <> EmptyString ->
  db_keys ("jobs_available:*" ++ u) (db w) = [] ->
  mem ("jobs:locks:" ++ q ++ "/" ++ u) (held w) = false ->
  let handed := reserved_copy job (now w) in
  let after :=
    with_db w (db_set ("jobs_reserved:" ++ q ++ "/" ++ u) (Json.stringify handed) (db w)) in
  (db_keys ("jobs_available:" ++ q ++ "/*") (db w) = [] ->
   run (bind (storeJob job) (fun _ => getJob q) d) w = (Ok handed, connected, after))
  /\ (db_keys ("jobs_available:*/" ++ u) (db w) = [] ->
      run (bind (storeJob job) (fun _ => getJobByUuid u) d) w
      = (Ok handed, connected, after)).
Proof.
  intros Hq Hu Hfailed Hpq Hpu Hune Hsuffix Hfree. cbn zeta.
  destruct (names_of q u job Hq Hu) as (Hstored & Hlock & Hkey & Hpat).
  assert (Hobj : job <> JNull) by (intros ->; discriminate).
  assert (Htruthy : truthy (Some job) = true) by (destruct job; try discriminate; reflexivity).
  assert (Hstate : current_state job = "available").
  { unfold current_state. destruct job; try discriminate. cbn [spread].
    cbn [get_field] in Hfailed. now rewrite Hfailed. }
  set (key := "jobs_available:" ++ q ++ "/" ++ u) in *.
  assert (Hg1 : Glob.glob ("jobs_available:" ++ q ++ "/*") key = true)
    by (apply (glob_queue_pattern "jobs_available:" q u); [reflexivity | discriminate | assumption]).
  assert (Hg2 : Glob.glob ("jobs_available:*" ++ u) key = true)
    by (apply (glob_uuid_pattern "jobs_available:" q u); [reflexivity | discriminate | assumption..]).
  assert (Hg3 : Glob.glob ("jobs_available:*/" ++ u) key = true).
  { apply (glob_prefix_star_suffix "jobs_available:" q ("/" ++ u));
      [reflexivity | discriminate | | discriminate].
    cbn [append plain]. exact Hpu. }
  assert (Hne : key <> EmptyString) by discriminate.
  assert (Habsent : db_get key (db w) = None) by (now apply (db_keys_none _ _ _ Hsuffix)).
  assert (Hreserve :
            run (reserveJob job connected)
                (with_db w (db w ++ [(key, Json.stringify job)])%list)
            = (Ok (reserved_copy job (now w)), connected,
               with_db w (db_set ("jobs_reserved:" ++ q ++ "/" ++ u)
                                 (Json.stringify (reserved_copy job (now w))) (db w)))).
  { rewrite run_reserveJob, Hstate. cbn [now with_db].
    rewrite moved_free by (rewrite lock_name_reserved_copy, Hlock; exact Hfree).
    rewrite source_pattern_reserved_copy, state_key_reserved_copy, Hpat, Hkey.
    cbn [db with_db].
    change ("jobs_" ++ "available" ++ ":*" ++ u) with ("jobs_available:*" ++ u).
    rewrite (first_key_last _ key _ _ Hsuffix Hg2 Hne), (db_del_last _ _ _ Habsent).
    reflexivity. }
  split; intros Hnone.
  - rewrite run_bind, run_storeJob by exact Hobj.
    rewrite Hstored, Habsent, (db_set_absent _ _ _ Habsent).
    rewrite run_getJob, (fetch_last _ key job w Hnone Hg1 Hne), Htruthy.
    exact Hreserve.
  - rewrite run_bind, run_storeJob by exact Hobj.
    rewrite Hstored, Habsent, (db_set_absent _ _ _ Habsent).
    rewrite run_getJobByUuid, (fetch_last _ key job w Hnone Hg3 Hne).
    exact Hreserve.
Qed.

Lemma redis_stored_job_is_handed_out_witness :
  run (bind (storeJob Scenario.the_job) (fun _ => getJob "q") fresh)
      (Scenario.store_of [] true)
  = (Ok Scenario.the_reserved_job, connected,
     Scenario.store_of [(Scenario.reserved_key, Json.stringify Scenario.the_reserved_job)]
                       true).
Proof.
  apply (proj1 (redis_stored_job_is_handed_out "q" "u1" Scenario.the_job fresh
                  (Scenario.store_of [] true) eq_refl eq_refl eq_refl eq_refl eq_refl
                  ltac:(discriminate) eq_refl eq_refl)).
  reflexivity.
Defined.

Lemma with_db_same (w : world) : with_db w (db w) = w.
Proof. now destruct w. Qed.

(** One move of [#markJob], from the last key of the store to a new one. *)
Lemma move_last (job : json) (mark st src text : string) (w : world) :
  mem (lock_name job) (held w) = false ->
  db_keys (source_pattern st job) (db w) = [] ->
  Glob.glob (source_pattern st job) src = true ->
  src <> EmptyString ->
  db_get (state_key mark job) (db w) = None ->
  moved job mark st (with_db w (db w ++ [(src, text)])%list)
  = (Ok tt, with_db w (db w ++ [(state_key mark job, Json.stringify job)])%list).
Proof.
  intros Hfree Hnone Hg Hne Hdst.
  rewrite moved_free by exact Hfree. cbn [db with_db].
  rewrite (first_key_last _ src _ _ Hnone Hg Hne).
  rewrite (db_del_last _ _ _ (db_keys_none _ _ _ Hnone Hg)).
  now rewrite (db_set_absent _ _ _ Hdst).
Qed.

Lemma names_of_reserved_copy (q u : string) (job : json) (ts : Z) :
  get_field "queue" job = Some (JStr q) -> get_field "uuid" job = Some (JStr u) ->
  get_field "queue" (reserved_copy job ts) = Some (JStr q)
  /\ get_field "uuid" (reserved_copy job ts) = Some (JStr u).
Proof. intros Hq Hu. now rewrite !get_field_reserved_copy by named_field. Qed.

Lemma names_of_failed_copy (q u : string) (job : json) (ts : Z) :
  get_field "queue" job = Some (JStr q) -> get_field "uuid" job = Some (JStr u) ->
  get_field "queue" (failed_copy job ts) = Some (JStr q)
  /\ get_field "uuid" (failed_copy job ts) = Some (JStr u).
Proof. intros Hq Hu. now rewrite !get_field_failed_copy by named_field. Qed.

Lemma current_state_failed_copy (job : json) (ts : Z) :
  ts <> 0%Z -> current_state (failed_copy job ts) = "failed".
Proof.
  intros Hts. unfold current_state, failed_copy. cbn [spread].
  rewrite lookup_assign_other by discriminate. rewrite lookup_assign_same. cbn [truthy].
  apply Z.eqb_neq in Hts. now rewrite Hts.
Qed.

(** X16.  The life of a job.  In a store where no key matches the patterns of its
    queue and uuid, with its lock free and a clock that does not read 0:
    the job is stored, handed out by [getJob], marked as failed, handed out
    again by [getFailedJob] and deleted; each call finds the key the call
    before it wrote, and the store ends as it began. *)
Theorem redis_life_of_a_job (q u : string) (job : json) (d : driver) (w : world) :
  get_field "queue" job = Some (JStr q) ->
  get_field "uuid" job = Some (JStr u) ->
  truthy (get_field "failed_at" job) = false ->
  plain q = true ->
  plain u = true ->
  u <> EmptyString ->
  unseen q u (db w) ->
  mem ("jobs:locks:" ++ q ++ "/" ++ u) (held w) = false ->
  now w <> 0%Z ->
  let first := reserved_copy job (now w) in
  let second := reserved_copy (failed_copy first (now w)) (now w) in
  perform_all [StoreJob job; GetJob q; MarkJobAsFailed u; GetFailedJob q; DeleteJob u] (d, w)
  = ([first; second], (connected, w)).
Proof.
  intros Hq Hu Hfailed Hpq Hpu Hune Hunseen Hfree Hclock. cbn zeta.
  unfold unseen, patterns_of in Hunseen.
  apply Forall_cons_iff in Hunseen. destruct Hunseen as [Ha_q Hunseen].
  apply Forall_cons_iff in Hunseen. destruct Hunseen as [Ha_u Hunseen].
  apply Forall_cons_iff in Hunseen. destruct Hunseen as [Hr_u Hunseen].
  apply Forall_cons_iff in Hunseen. destruct Hunseen as [Hf_q Hunseen].
  apply Forall_cons_iff in Hunseen. destruct Hunseen as [Hf_u Hunseen].
  apply Forall_cons_iff in Hunseen. destruct Hunseen as [Hj_u _].
  set (first := reserved_copy job (now w)).
  set (failed := failed_copy first (now w)).
  set (second := reserved_copy failed (now w)).
  destruct (names_of q u job Hq Hu) as (Hstored & Hlock & Hkey & Hpat).
  destruct (names_of_reserved_copy q u job (now w) Hq Hu) as [Hq1 Hu1]. fold first in Hq1, Hu1.
  destruct (names_of_failed_copy q u first (now w) Hq1 Hu1) as [Hq2 Hu2]. fold failed in Hq2, Hu2.
  destruct (names_of_reserved_copy q u failed (now w) Hq2 Hu2) as [Hq3 Hu3].
  fold second in Hq3, Hu3.
  destruct (names_of q u first Hq1 Hu1) as (_ & Hlock1 & Hkey1 & Hpat1).
  destruct (names_of q u failed Hq2 Hu2) as (_ & Hlock2 & Hkey2 & Hpat2).
  destruct (names_of q u second Hq3 Hu3) as (_ & Hlock3 & Hkey3 & Hpat3).
  set (akey := "jobs_available:" ++ q ++ "/" ++ u) in *.
  set (rkey := "jobs_reserved:" ++ q ++ "/" ++ u).
  set (fkey := "jobs_failed:" ++ q ++ "/" ++ u).
  assert (Hobj : job <> JNull) by (intros ->; discriminate).
  assert (Htruthy : truthy (Some job) = true) by (destruct job; try discriminate; reflexivity).
  assert (Hstate : current_state job = "available").
  { unfold current_state. destruct job; try discriminate. cbn [spread].
    cbn [get_field] in Hfailed. now rewrite Hfailed. }
  assert (Hga_q : Glob.glob ("jobs_available:" ++ q ++ "/*") akey = true)
    by (apply (glob_queue_pattern "jobs_available:" q u); [reflexivity | discriminate | assumption]).
  assert (Hga_u : Glob.glob ("jobs_available:*" ++ u) akey = true)
    by (apply (glob_uuid_pattern "jobs_available:" q u); [reflexivity | discriminate | assumption..]).
  assert (Hgr_u : Glob.glob ("jobs_reserved:*" ++ u) rkey = true)
    by (apply (glob_uuid_pattern "jobs_reserved:" q u); [reflexivity | discriminate | assumption..]).
  assert (Hgf_q : Glob.glob ("jobs_failed:" ++ q ++ "/*") fkey = true)
    by (apply (glob_queue_pattern "jobs_failed:" q u); [reflexivity | discriminate | assumption]).
  assert (Hgf_u : Glob.glob ("jobs_failed:*" ++ u) fkey = true)
    by (apply (glob_uuid_pattern "jobs_failed:" q u); [reflexivity | discriminate | assumption..]).
  assert (Hgj_u : Glob.glob ("jobs_*" ++ u) rkey = true).
  { change rkey with ("jobs_" ++ ("reserved:" ++ q ++ "/" ++ u)).
    replace ("reserved:" ++ q ++ "/" ++ u) with (("reserved:" ++ q ++ "/") ++ u)
      by now rewrite !JsonFacts.append_assoc.
    apply (glob_prefix_star_suffix "jobs_" ("reserved:" ++ q ++ "/") u);
      [reflexivity | discriminate | assumption..]. }
  assert (Habs_a : db_get akey (db w) = None) by (now apply (db_keys_none _ _ _ Ha_q)).
  assert (Habs_r : db_get rkey (db w) = None) by (now apply (db_keys_none _ _ _ Hr_u)).
  assert (Habs_f : db_get fkey (db w) = None) by (now apply (db_keys_none _ _ _ Hf_q)).
  assert (Hne_a : akey <> EmptyString) by discriminate.
  assert (Hne_r : rkey <> EmptyString) by discriminate.
  assert (Hne_f : fkey <> EmptyString) by discriminate.
  (* storeJob *)
  assert (S1 : run (storeJob job d) w
               = (Ok tt, connected, with_db w (db w ++ [(akey, Json.stringify job)])%list)).
  { rewrite run_storeJob by exact Hobj.
    now rewrite Hstored, Habs_a, (db_set_absent _ _ _ Habs_a). }
  (* getJob *)
  assert (S2 : run (getJob q connected) (with_db w (db w ++ [(akey, Json.stringify job)])%list)
               = (Ok first, connected,
                  with_db w (db w ++ [(rkey, Json.stringify first)])%list)).
  { rewrite run_getJob, (fetch_last _ akey job w Ha_q Hga_q Hne_a), Htruthy.
    rewrite run_reserveJob, Hstate. cbn [now with_db]. fold first.
    rewrite (move_last first "reserved" "available" akey _ w).
    - now rewrite Hkey1.
    - now rewrite Hlock1.
    - now rewrite Hpat1.
    - now rewrite Hpat1.
    - exact Hne_a.
    - now rewrite Hkey1. }
  (* markJobAsFailed *)
  assert (S3 : run (markJobAsFailed u connected)
                   (with_db w (db w ++ [(rkey, Json.stringify first)])%list)
               = (Ok tt, connected,
                  with_db w (db w ++ [(fkey, Json.stringify failed)])%list)).
  { rewrite run_markJobAsFailed, (fetch_last _ rkey first w Hr_u Hgr_u Hne_r).
    rewrite run_failJob. cbn [now with_db]. fold failed.
    rewrite (move_last failed "failed" "reserved" rkey _ w).
    - now rewrite Hkey2.
    - now rewrite Hlock2.
    - now rewrite Hpat2.
    - now rewrite Hpat2.
    - exact Hne_r.
    - now rewrite Hkey2. }
  (* getFailedJob *)
  assert (S4 : run (getFailedJob q connected)
                   (with_db w (db w ++ [(fkey, Json.stringify failed)])%list)
               = (Ok second, connected,
                  with_db w (db w ++ [(rkey, Json.stringify second)])%list)).
  { rewrite run_getFailedJob, (fetch_last _ fkey failed w Hf_q Hgf_q Hne_f).
    rewrite run_reserveJob. cbn [now with_db]. fold second.
    assert (Hst : current_state failed = "failed")
      by exact (current_state_failed_copy first (now w) Hclock).
    rewrite Hst.
    rewrite (move_last second "reserved" "failed" fkey _ w).
    - now rewrite Hkey3.
    - now rewrite Hlock3.
    - now rewrite Hpat3.
    - now rewrite Hpat3.
    - exact Hne_f.
    - now rewrite Hkey3. }
  (* deleteJob *)
  assert (S5 : run (deleteJob u connected)
                   (with_db w (db w ++ [(rkey, Json.stringify second)])%list)
               = (Ok tt, connected, w)).
  { rewrite run_deleteJob.
    change (db (with_db w (db w ++ [(rkey, Json.stringify second)])%list))
      with (db w ++ [(rkey, Json.stringify second)])%list.
    rewrite (first_key_last _ rkey _ _ Hj_u Hgj_u Hne_r), (db_del_last _ _ _ Habs_r).
    rewrite with_db_twice. now rewrite with_db_same. }
  cbn [perform_all perform]. unfold call_on, quiet, handed. cbn [fst snd].
  rewrite S1. cbn [fst snd]. rewrite S2. cbn [fst snd].
  rewrite S3. cbn [fst snd]. rewrite S4. cbn [fst snd]. rewrite S5. cbn [fst snd].
  assert (T1 : truthy (Some first) = true) by reflexivity.
  assert (T2 : truthy (Some second) = true) by reflexivity.
  now rewrite T1, T2.
Qed.

Lemma redis_life_of_a_job_witness :
  perform_all [StoreJob Scenario.the_job; GetJob "q"; MarkJobAsFailed "u1";
               GetFailedJob "q"; DeleteJob "u1"]
    (fresh, Scenario.store_of [("jobs_available:p/u2", "{}")] true)
  = ([reserved_copy Scenario.the_job 200;
      reserved_copy (failed_copy (reserved_copy Scenario.the_job 200) 200) 200],
     (connected, Scenario.store_of [("jobs_available:p/u2", "{}")] true)).
Proof.
  apply (redis_life_of_a_job "q" "u1" Scenario.the_job fresh
           (Scenario.store_of [("jobs_available:p/u2", "{}")] true));
    try reflexivity; try discriminate.
  repeat constructor.
Defined.

End RedisJourneys.

(** ** The facade *)

Module FacadeFacts.
Import Facade.

(** X23.  The constructor of the facade throws 'Driver not supported' for every
    name but [sqlite3] and [redis], before it looks at the configuration.
    It builds the distributed-store driver for [redis] with any
    configuration, even none.  It builds the relational driver for
    [sqlite3] exactly when the configuration is a value other than [null]
    whose [filePath] is not the string [:memory:]: that path is refused with
    ':memory: is not supported', and a configuration that is missing makes
    the reading of [filePath] throw. *)
Theorem facade_constructor_accepts (driverName : string) (driverConfig : value) :
  (includes driverName supportedDrivers = false ->
   constructor driverName driverConfig = Exn (Error "Driver not supported"))
  /\ ((exists c, constructor driverName driverConfig = Ok c)
      <-> driverName = "redis"
          \/ (driverName = "sqlite3"
              /\ exists config, driverConfig = Some config /\ config <> JNull
                                /\ get_field "filePath" config <> Some (JStr ":memory:")))
  /\ (driverName = "sqlite3" ->
      (forall config, driverConfig = Some config ->
         get_field "filePath" config = Some (JStr ":memory:") ->
         constructor driverName driverConfig = Exn (Error ":memory: is not supported"))
      /\ (driverConfig = None \/ driverConfig = Some JNull ->
          exists m, constructor driverName driverConfig = Exn (TypeError m))).
Proof.
  split; [|split].
  - intros H. unfold constructor. now rewrite H.
  - unfold constructor, includes, supportedDrivers. cbn [existsb].
    destruct (String.eqb driverName "sqlite3") eqn:Es.
    + apply String.eqb_eq in Es. subst driverName. cbn [orb negb]. split.
      * intros (c & Hc). right. split; [reflexivity|].
        unfold sqlite3 in Hc.
        destruct driverConfig as [config|]; [|discriminate].
        exists config. split; [reflexivity|].
        destruct config as [| | | | |fs]; try discriminate;
          (split; [discriminate|]); cbn; try discriminate.
        cbn [get_field] in Hc.
        destruct (lookup "filePath" fs) as [[| | |f| |]|]; try discriminate.
        destruct (String.eqb f ":memory:") eqn:Ef; [discriminate|].
        apply String.eqb_neq in Ef. congruence.
      * intros [H | (_ & config & -> & Hnull & Hpath)]; [discriminate|].
        unfold sqlite3.
        destruct config as [| | | | |fs]; try (eexists; reflexivity); [contradiction|].
        cbn [get_field] in *.
        destruct (lookup "filePath" fs) as [[| | |f| |]|]; try (eexists; reflexivity).
        destruct (String.eqb f ":memory:") eqn:Ef; [|eexists; reflexivity].
        apply String.eqb_eq in Ef. subst f. contradiction.
    + destruct (String.eqb driverName "redis") eqn:Er; cbn [orb negb].
      * apply String.eqb_eq in Er. split; [now left | intros _; eexists; reflexivity].
      * apply String.eqb_neq in Es. apply String.eqb_neq in Er. split.
        -- intros (c & Hc). discriminate.
        -- intros [H | (H & _)]; contradiction.
  - intros ->. split.
    + intros config -> Hpath.
      change (constructor "sqlite3" (Some config)) with (sqlite3 (Some config)).
      unfold sqlite3. destruct config as [| | | | |fs]; try discriminate.
      now rewrite Hpath.
    + intros [-> | ->]; eexists; reflexivity.
Qed.

Lemma facade_constructor_accepts_witness :
  exists c,
    constructor "sqlite3" (Some (JObj [("filePath", JStr "/tmp/db.sqlite3")])) = Ok c.
Proof.
  apply (proj2 (proj1 (proj2 (facade_constructor_accepts "sqlite3"
                                (Some (JObj [("filePath", JStr "/tmp/db.sqlite3")])))))).
  right. split; [reflexivity|]. eexists. repeat split; discriminate.
Defined.

(** X24.  The facade hands both drivers [util.promisify] first.  The constructor
    of the relational driver takes its parameters in that order, and
    receives the whole configuration object, not its [filePath], as
    [fileName].  The constructor of the distributed-store driver takes four
    parameters, the clock first: built by the facade, it has
    [util.promisify] for its clock, the clock for its [redis] library, the
    library for its configuration and the configuration for [Redlock]. *)
Theorem facade_arguments_and_driver_parameters (driverConfig : value) (c : construction) :
  (constructor "redis" driverConfig = Ok c ->
   received c "getCurrentTimestamp" = Some Promisify
   /\ received c "redis" = Some GetCurrentTimestamp
   /\ received c "redisConfig" = Some RedisLibrary
   /\ received c "Redlock" = Some (DriverConfig driverConfig))
  /\ (constructor "sqlite3" driverConfig = Ok c ->
      received c "promisify" = Some Promisify
      /\ received c "getCurrentTimestamp" = Some GetCurrentTimestamp
      /\ received c "sqlite3" = Some Sqlite3
      /\ received c "fileName" = Some (DriverConfig driverConfig)).
Proof.
  split.
  - intros [= <-]. repeat split.
  - unfold constructor. cbn. unfold sqlite3.
    destruct driverConfig as [config|]; [|discriminate].
    destruct config as [| | | | |fs]; try discriminate;
      try (intros [= <-]; repeat split).
    cbn [get_field].
    destruct (lookup "filePath" fs) as [[| | |f| |]|]; try (intros [= <-]; repeat split).
    destruct (String.eqb f ":memory:"); [discriminate | intros [= <-]; repeat split].
Qed.

Lemma facade_arguments_and_driver_parameters_witness :
  received (mkConstruction NewRedisDriver
              [Promisify; GetCurrentTimestamp; RedisLibrary; DriverConfig (Some (JObj []));
               RedLock]) "redis"
  = Some GetCurrentTimestamp.
Proof.
  apply (proj1 (facade_arguments_and_driver_parameters (Some (JObj [])) _)).
  reflexivity.
Defined.

End FacadeFacts.
